(** * crack-chatbot: the API service of [server/app/main.py]

    A shallow embedding of the FastAPI handlers over an explicit store.
    The three tables of [server/app/models.py] are lists of rows in
    insertion order; a handler is a function from the store (and the
    session cookie) to the new store and the response.  What the code
    receives from outside is an input of the model: the readings of
    [datetime.utcnow], the claims the identity provider returns and the
    behaviour of the inference service. *)

From Stdlib Require Import ZArith List String Lia.
From stdpp Require Import base option list sorting strings pretty gmap.

Set Warnings "-register-all".

Local Open Scope string_scope.
Local Open Scope list_scope.
Local Open Scope Z_scope.

(** ** Persistence schema ([models.py]) *)

(** A [DateTime] column: microseconds on the clock of [datetime.utcnow]. *)
Definition datetime := Z.

Module User.
Record t := mk {
  id : Z;
  google_id : string;
  email : string;
  name : option string;
  picture : option string;
  created_at : datetime;
  last_login : datetime
}.
End User.

Module Conversation.
Record t := mk {
  id : Z;
  user_id : Z;
  title : string;
  created_at : datetime
}.
End Conversation.

Module Message.
Record t := mk {
  id : Z;
  conversation_id : Z;
  sender : string;
  content : string;
  timestamp : datetime
}.
End Message.

(** The store: one list of rows per table, oldest insert first. *)
Record DB := mkDB {
  users : list User.t;
  conversations : list Conversation.t;
  messages : list Message.t
}.

(** An [Integer] primary key left unset on insert: one more than the
    largest key of the table, and 1 on an empty table. *)
Definition next_id (ids : list Z) : Z := 1 + foldr Z.max 0 ids.

(** ** Queries *)

(** [order_by]: a stable insertion sort; [before a b] says that a row
    with key [a] may stand in front of a row with key [b].  Rows with
    equal keys keep the order of the table. *)
Section OrderBy.
Context {A : Type} (key : A → Z) (before : Z → Z → bool).

Fixpoint place (x : A) (rows : list A) : list A :=
  match rows with
  | [] => [x]
  | y :: rest =>
      if before (key x) (key y) then x :: y :: rest
      else y :: place x rest
  end.

Definition order_by (rows : list A) : list A := foldr place [] rows.
End OrderBy.

Definition asc (a b : Z) : bool := a <=? b.
Definition desc (a b : Z) : bool := b <=? a.

(** [.limit(n)] *)
Definition limit {A : Type} (n : nat) (rows : list A) : list A := take n rows.

(** [.first()] *)
Definition first {A : Type} (rows : list A) : option A := head rows.

Definition user_by_google_id (sub : string) (db : DB) : option User.t :=
  first (filter (λ u, User.google_id u = sub) (users db)).

(** [Conversation.id == conversation_id, Conversation.user_id == db_user.id] *)
Definition owned_conversation (conversation_id uid : Z) (db : DB)
  : option Conversation.t :=
  first (filter (λ c, Conversation.id c = conversation_id
                      ∧ Conversation.user_id c = uid) (conversations db)).

Definition messages_of (conversation_id : Z) (db : DB) : list Message.t :=
  filter (λ m, Message.conversation_id m = conversation_id) (messages db).

(** ** Inserts and deletes *)

Definition add_user (sub email : string) (name picture : option string)
    (now : datetime) (db : DB) : DB :=
  let u := User.mk (next_id (User.id <$> users db)) sub email name picture now now in
  mkDB (users db ++ [u]) (conversations db) (messages db).

Definition add_conversation (uid : Z) (title : string) (now : datetime)
    (db : DB) : DB * Conversation.t :=
  let c := Conversation.mk (next_id (Conversation.id <$> conversations db))
             uid title now in
  (mkDB (users db) (conversations db ++ [c]) (messages db), c).

Definition add_message (conversation_id : Z) (sender content : string)
    (now : datetime) (db : DB) : DB * Message.t :=
  let m := Message.mk (next_id (Message.id <$> messages db))
             conversation_id sender content now in
  (mkDB (users db) (conversations db) (messages db ++ [m]), m).

(** [db.delete(conversation)]: the row goes, and with it, by the
    [cascade="all, delete-orphan"] of the relationship, its messages. *)
Definition delete_conversation_row (c : Conversation.t) (db : DB) : DB :=
  mkDB (users db)
       (filter (λ c', Conversation.id c' ≠ Conversation.id c) (conversations db))
       (filter (λ m, Message.conversation_id m ≠ Conversation.id c) (messages db)).

(** ** JSON values, responses and the session cookie *)

(** The dicts the handlers return and the frames they stream.  [JTime t]
    stands for the string [t.isoformat()]. *)
Inductive json :=
| JNull
| JInt (n : Z)
| JStr (s : string)
| JTime (t : datetime)
| JList (items : list json)
| JObj (fields : list (string * json)).

(** [obj[key]] on a dict *)
Definition jget (key : string) (obj : json) : option json :=
  match obj with
  | JObj fields => snd <$> first (filter (λ kv, kv.1 = key) fields)
  | _ => None
  end.

Definition jopt (o : option string) : json :=
  match o with Some s => JStr s | None => JNull end.

(** What a streaming generator does, step by step: it yields a line to
    the client, posts its messages to the inference service, or commits
    the store. *)
Inductive Event :=
| Yield (frame : json)
| Post (ollama_messages : list json)
| Commit (db : DB).

Inductive Response :=
| HTTPException (status_code : Z) (detail : string)
| JSONResponse (body : json)
| RedirectResponse (url : string)
| StreamingResponse (body : list Event)
| Unhandled.

(** The status line of a response: FastAPI answers a returned dict with
    200, [RedirectResponse] defaults to 307, a stream starts with 200 and
    an exception no handler catches becomes 500. *)
Definition status (r : Response) : Z :=
  match r with
  | HTTPException code _ => code
  | JSONResponse _ => 200
  | RedirectResponse _ => 307
  | StreamingResponse _ => 200
  | Unhandled => 500
  end.

(** The frames a client reads from a stream, in order. *)
Definition frames (body : list Event) : list json :=
  omap (λ e, match e with Yield f => Some f | _ => None end) body.

(** What the inference service was sent. *)
Definition posts (body : list Event) : list (list json) :=
  omap (λ e, match e with Post msgs => Some msgs | _ => None end) body.

(** The store once the events have run. *)
Definition run_events (db : DB) (body : list Event) : DB :=
  foldl (λ db e, match e with Commit db' => db' | _ => db end) db body.

(** The store after the response has been delivered in full. *)
Definition delivered (out : DB * Response) : DB :=
  match out.2 with
  | StreamingResponse body => run_events out.1 body
  | _ => out.1
  end.

(** The provider's user-info claims, a dict. *)
Abbreviation Claims := (gmap string string).

(** [request.session.get('user')] *)
Abbreviation Session := (option Claims).

(** Python truthiness of [user]: neither [None] nor an empty dict. *)
Definition truthy (user : option Claims) : bool :=
  match user with
  | Some d => bool_decide (d ≠ ∅)
  | None => false
  end.

(** The outcome of a helper that may raise an exception nobody catches. *)
Inductive Raising (A : Type) :=
| Return (a : A)
| Raise.
Arguments Return {A} a.
Arguments Raise {A}.

(** [get_current_user_from_session] *)
Definition get_current_user_from_session (session : Session) (db : DB)
  : Raising (option User.t) :=
  if negb (truthy session) then Return None
  else
    match default ∅ session !! "sub" with
    | Some sub => Return (user_by_google_id sub db)
    | None => Raise
    end.

(** The opening of every protected handler. *)
Definition authenticated (session : Session) (db : DB)
    (k : User.t → DB * Response) : DB * Response :=
  match get_current_user_from_session session db with
  | Raise => (db, Unhandled)
  | Return None => (db, HTTPException 401 "Not authenticated")
  | Return (Some db_user) => k db_user
  end.

(** ** Authentication *)

(** [GET /auth], given what [oauth.google.userinfo] returned.  A new row
    needs the [email] claim and, the column being unique, an address no
    other row holds; otherwise the insert raises. *)
Definition auth (user : option Claims) (now : datetime)
    (session : Session) (db : DB) : DB * Session * Response :=
  if truthy user then
    let claims := default ∅ user in
    match claims !! "sub" with
    | None => (db, session, Unhandled)
    | Some sub =>
        match user_by_google_id sub db with
        | Some existing_user =>
            (db, user, RedirectResponse "http://localhost:3000/chat")
        | None =>
            match claims !! "email" with
            | None => (db, session, Unhandled)
            | Some email =>
                if bool_decide (email ∈ User.email <$> users db)
                then (db, session, Unhandled)
                else (add_user sub email (claims !! "name")
                        (claims !! "picture") now db,
                      user, RedirectResponse "http://localhost:3000/chat")
            end
        end
    end
  else (db, session, JSONResponse (JObj [("error", JStr "Authentication failed")])).

(** [POST /auth/logout] *)
Definition logout (session : Session) : Session * Response :=
  (None, JSONResponse (JObj [("message", JStr "Logged out successfully")])).

(** [GET /me] *)
Definition get_current_user (session : Session) (db : DB) : Response :=
  let anonymous := JSONResponse (JObj [("user", JNull)]) in
  if truthy session then
    match default ∅ session !! "sub" with
    | None => Unhandled
    | Some sub =>
        match user_by_google_id sub db with
        | Some db_user =>
            JSONResponse (JObj [("user", JObj [
              ("id", JStr (pretty (User.id db_user)));
              ("email", JStr (User.email db_user));
              ("name", jopt (User.name db_user));
              ("picture", jopt (User.picture db_user))])])
        | None => anonymous
        end
    end
  else anonymous.

(** ** Conversations *)

Definition conversation_json (conv : Conversation.t) : json :=
  JObj [("id", JInt (Conversation.id conv));
        ("title", JStr (Conversation.title conv));
        ("created_at", JTime (Conversation.created_at conv))].

(** [GET /api/conversations] *)
Definition get_conversations (session : Session) (db : DB) : DB * Response :=
  authenticated session db (λ db_user,
    let conversations :=
      order_by Conversation.created_at desc
        (filter (λ c, Conversation.user_id c = User.id db_user) (conversations db)) in
    (db, JSONResponse (JObj [("conversations",
                              JList (conversation_json <$> conversations))]))).

(** [POST /api/conversations]; [title] is the field of the validated
    body: ["New Chat"] when the key was left out, [None] for an explicit
    null, which the [nullable=False] column refuses. *)
Definition create_conversation (title : option string) (now : datetime)
    (session : Session) (db : DB) : DB * Response :=
  authenticated session db (λ db_user,
    match title with
    | None => (db, Unhandled)
    | Some title =>
        let '(db', new_conversation) :=
          add_conversation (User.id db_user) title now db in
        (db', JSONResponse (conversation_json new_conversation))
    end).

(** [DELETE /api/conversations/{conversation_id}] *)
Definition delete_conversation (conversation_id : Z)
    (session : Session) (db : DB) : DB * Response :=
  authenticated session db (λ db_user,
    match owned_conversation conversation_id (User.id db_user) db with
    | None => (db, HTTPException 404 "Conversation not found")
    | Some conversation =>
        (delete_conversation_row conversation db,
         JSONResponse (JObj [("message", JStr "Conversation deleted")]))
    end).

(** ** Messages *)

Definition message_json (msg : Message.t) : json :=
  JObj [("id", JInt (Message.id msg));
        ("content", JStr (Message.content msg));
        ("sender", JStr (Message.sender msg));
        ("timestamp", JTime (Message.timestamp msg))].

(** The transcript of a conversation, oldest message first. *)
Definition transcript (conversation_id : Z) (db : DB) : list Message.t :=
  order_by Message.timestamp asc (messages_of conversation_id db).

(** [GET /api/conversations/{conversation_id}/messages] *)
Definition get_messages (conversation_id : Z)
    (session : Session) (db : DB) : DB * Response :=
  authenticated session db (λ db_user,
    match owned_conversation conversation_id (User.id db_user) db with
    | None => (db, HTTPException 404 "Conversation not found")
    | Some conversation =>
        (db, JSONResponse (JObj [("messages",
               JList (message_json <$> transcript conversation_id db))]))
    end).

(** ** Chat *)

(** The validated body of [POST /api/chat]. *)
Module ChatRequest.
Record t := mk {
  message : string;
  conversation_id : option Z
}.
End ChatRequest.

(** [not conversation_id]: true of [None] and of 0. *)
Definition falsy (conversation_id : option Z) : bool :=
  match conversation_id with
  | None => true
  | Some n => bool_decide (n = 0)
  end.

(** [message[:50] + "..." if len(message) > 50 else message] *)
Definition auto_title (message : string) : string :=
  if decide (50 < String.length message)%nat
  then substring 0 50 message +:+ "..."
  else message.

(** One step of [response.aiter_lines()], as the loop body sees it: an
    empty line; a line that decodes to a dict, of which the loop reads
    the fragment [chunk["message"]["content"]], when it is there, and the
    truth of [chunk.get("done")]; or an exception, raised by the read or
    by the decoding of the line, with the text [str(e)]. *)
Inductive Line :=
| Blank
| Chunk (content : option string) (done : bool)
| Broken (e : string).

(** What the call to the inference service comes to: the connection
    fails, [raise_for_status] refuses the status, or lines arrive. *)
Inductive Inference :=
| ConnectError (e : string)
| StatusError (e : string)
| Lines (lines : list Line).

(** What the chat handler takes from outside: the clock at each of its
    three inserts, and the inference service, which answers the messages
    it is sent. *)
Record World := mkWorld {
  conversation_now : datetime;
  user_message_now : datetime;
  ai_message_now : datetime;
  ollama : list json → Inference
}.

Definition content_frame (content : string) : json :=
  JObj [("type", JStr "content"); ("content", JStr content)].

Definition error_frame (error_msg : string) : json :=
  JObj [("type", JStr "error"); ("content", JStr error_msg)].

Definition meta_frame (conversation_id : Z) (user_message : Message.t) : json :=
  JObj [("type", JStr "meta");
        ("conversation_id", JInt conversation_id);
        ("user_message", JObj [
           ("id", JInt (Message.id user_message));
           ("content", JStr (Message.content user_message));
           ("timestamp", JTime (Message.timestamp user_message))])].

Definition done_frame (ai_message : Message.t) : json :=
  JObj [("type", JStr "done");
        ("ai_message", JObj [
           ("id", JInt (Message.id ai_message));
           ("content", JStr (Message.content ai_message));
           ("timestamp", JTime (Message.timestamp ai_message))])].

(** The loop over the lines of the reply: the frames it yields, the
    buffer [full_response] when it leaves, and the exception that ended
    it, if one did. *)
Fixpoint relay (lines : list Line) (full_response : string)
  : list json * string * option string :=
  match lines with
  | [] => ([], full_response, None)
  | Blank :: rest => relay rest full_response
  | Broken e :: _ => ([], full_response, Some e)
  | Chunk content done :: rest =>
      let full_response' :=
        match content with
        | Some c => full_response +:+ c
        | None => full_response
        end in
      let yielded :=
        match content with
        | Some c => [content_frame c]
        | None => []
        end in
      if done then (yielded, full_response', None)
      else
        let '(more, full, raised) := relay rest full_response' in
        (yielded ++ more, full, raised)
  end.

(** The body of the [try]. *)
Definition stream_inference (reply : Inference)
  : list json * string * option string :=
  match reply with
  | ConnectError e => ([], "", Some e)
  | StatusError e => ([], "", Some e)
  | Lines lines => relay lines ""
  end.

Definition ollama_message (m : Message.t) : json :=
  JObj [("role", JStr (if decide (Message.sender m = "user")
                       then "user" else "assistant"));
        ("content", JStr (Message.content m))].

(** The last ten messages of the conversation, oldest first. *)
Definition history (conversation_id : Z) (db : DB) : list Message.t :=
  reverse (limit 10 (order_by Message.timestamp desc
                       (messages_of conversation_id db))).

(** [event_generator], run to its end on the store [db]. *)
Definition event_generator (w : World) (conversation_id : Z)
    (user_message : Message.t) (db : DB) : list Event :=
  let ollama_messages := ollama_message <$> history conversation_id db in
  let '(content_frames, full_response, raised) :=
    stream_inference (ollama w ollama_messages) in
  let error_msg := λ e, "Ollama Connection Error: " +:+ e in
  let error_frames :=
    match raised with
    | Some e => [error_frame (error_msg e)]
    | None => []
    end in
  let full_response :=
    match raised with
    | Some e => error_msg e
    | None => full_response
    end in
  let '(db', ai_message) :=
    add_message conversation_id "ai" full_response (ai_message_now w) db in
  Yield (meta_frame conversation_id user_message)
    :: Post ollama_messages
    :: (Yield <$> content_frames)
    ++ (Yield <$> error_frames)
    ++ [Commit db'; Yield (done_frame ai_message)].

(** "Create or verify conversation": the store and the conversation id
    the handler goes on with, or [None] where it raises the 404. *)
Definition resolve_conversation (w : World) (chat_request : ChatRequest.t)
    (db_user : User.t) (db : DB) : option (DB * Z) :=
  let conversation_id := ChatRequest.conversation_id chat_request in
  if falsy conversation_id then
    let title := auto_title (ChatRequest.message chat_request) in
    let '(db', new_conversation) :=
      add_conversation (User.id db_user) title (conversation_now w) db in
    Some (db', Conversation.id new_conversation)
  else
    let conversation_id := default 0 conversation_id in
    match owned_conversation conversation_id (User.id db_user) db with
    | Some conversation => Some (db, conversation_id)
    | None => None
    end.

(** [POST /api/chat].  The store of the result is the store when the
    handler returns its [StreamingResponse]; the generator runs after
    that, as the body is sent. *)
Definition chat (w : World) (chat_request : ChatRequest.t)
    (session : Session) (db : DB) : DB * Response :=
  authenticated session db (λ db_user,
    match resolve_conversation w chat_request db_user db with
    | None => (db, HTTPException 404 "Conversation not found")
    | Some (db1, conversation_id) =>
        let '(db2, user_message) :=
          add_message conversation_id "user"
            (ChatRequest.message chat_request) (user_message_now w) db1 in
        (db2, StreamingResponse
                (event_generator w conversation_id user_message db2))
    end).

(** ** The vocabulary of the properties *)

(** The fragments of a reply, put together. *)
Definition join (fragments : list string) : string :=
  foldr String.append "" fragments.

(** A line after which the loop reads on. *)
Inductive reads_on : Line → Prop :=
| reads_on_blank : reads_on Blank
| reads_on_chunk content : reads_on (Chunk content false).

(** The inference call fails with the exception text [e]: on connecting,
    on the status, or on a line that is reached, no earlier line having
    said that the reply is done. *)
Inductive fails_with : Inference → string → Prop :=
| fails_connect e : fails_with (ConnectError e) e
| fails_status e : fails_with (StatusError e) e
| fails_line before e after :
    Forall reads_on before →
    fails_with (Lines (before ++ Broken e :: after)) e.

(** The ["type"] of a frame. *)
Definition frame_type (frame : json) : option string :=
  match jget "type" frame with
  | Some (JStr s) => Some s
  | _ => None
  end.

(** The text the assistant's message holds: the description of the
    failure when the call raised, the fragments put together otherwise. *)
Definition reply_text (raised : option string) (contents : list string)
  : string :=
  match raised with
  | Some e => "Ollama Connection Error: " +:+ e
  | None => join contents
  end.

(** The text of the "error" frame, when there is one. *)
Definition error_texts (raised : option string) : list string :=
  match raised with
  | Some e => ["Ollama Connection Error: " +:+ e]
  | None => []
  end.

(** Oldest first: no message is later than one that follows it. *)
Definition chronological (ms : list Message.t) : Prop :=
  StronglySorted (λ a b, Message.timestamp a ≤ Message.timestamp b) ms.

(** No conversation with this id belongs to this user: there is none
    with the id, or those there are belong to others. *)
Definition not_owned (cid uid : Z) (db : DB) : Prop :=
  ∀ c, c ∈ conversations db →
       Conversation.id c = cid → Conversation.user_id c ≠ uid.

(** ** A store and a world to run the handlers on *)

Module Sample.
Definition alice : Claims :=
  {[ "sub" := "g-alice"; "email" := "alice@example.org"; "name" := "Alice" ]}.

Definition bob : Claims :=
  {[ "sub" := "g-bob"; "email" := "bob@example.org" ]}.

Definition carol : Claims :=
  {[ "sub" := "g-carol"; "email" := "carol@example.org" ]}.

(** Fifteen messages of conversation 1, stamped 11 to 25, the user and
    the assistant taking turns. *)
Definition turns : list Message.t :=
  (λ i : nat,
     Message.mk (Z.of_nat i) 1 (if Nat.even i then "ai" else "user")
       ("turn " +:+ pretty (Z.of_nat i)) (10 + Z.of_nat i))
  <$> seq 1 15.

(** Alice owns conversation 1, Bob conversation 2. *)
Definition accounts : DB :=
  (auth (Some bob) 2 None (auth (Some alice) 1 None (mkDB [] [] [])).1.1).1.1.

Definition db : DB :=
  mkDB (users accounts)
    [Conversation.mk 1 1 "Trip" 5; Conversation.mk 2 2 "Budget" 6]
    (turns ++ [Message.mk 16 2 "user" "numbers" 26]).

(** The same store before Bob opened his conversation. *)
Definition db_before : DB :=
  mkDB (users accounts) [Conversation.mk 1 1 "Trip" 5] turns.

(** A reply in two fragments, and one that breaks off after the first. *)
Definition replies : Inference :=
  Lines [Chunk (Some "Hel") false; Blank; Chunk (Some "lo") true].

Definition breaks : Inference :=
  Lines ([Chunk (Some "Hel") false; Blank]
         ++ Broken "Expecting value: line 1 column 1 (char 0)"
         :: [Chunk (Some "lo") true]).

Definition world (reply : Inference) : World :=
  mkWorld 100 101 102 (λ _, reply).

Definition request : ChatRequest.t := ChatRequest.mk "and then?" (Some 1).

(** The body of a response that streams. *)
Definition stream (r : Response) : list Event :=
  match r with
  | StreamingResponse body => body
  | _ => []
  end.

Definition answered : DB * Response :=
  chat (world replies) request (Some alice) db.

Definition failed : DB * Response :=
  chat (world breaks) request (Some alice) db.
End Sample.

(** Every message is in a conversation of the store, and every
    conversation belongs to a user of the store. *)
Definition referential_integrity (db : DB) : Prop :=
  (∀ m, m ∈ messages db →
        ∃ c, c ∈ conversations db ∧
             Conversation.id c = Message.conversation_id m) ∧
  (∀ c, c ∈ conversations db →
        ∃ u, u ∈ users db ∧ User.id u = Conversation.user_id c).

(** Rows of the sample store, by name, and a visitor's claims. *)
Module Rows.
Definition alice : User.t :=
  User.mk 1 "g-alice" "alice@example.org" (Some "Alice") None 1 1.

Definition trip : Conversation.t := Conversation.mk 1 1 "Trip" 5.

Definition dave : Claims :=
  {[ "sub" := "g-dave"; "email" := "dave@example.org";
     "picture" := "https://example.org/dave.png" ]}.
End Rows.

(** The fragment a line of the reply carries, when it carries one. *)
Definition fragment (l : Line) : option string :=
  match l with
  | Chunk content _ => content
  | _ => None
  end.

(** The inference call runs to its end, and [contents] are the
    fragments of the lines it read, in their order: every line read is
    empty or a chunk, up to the chunk that says the reply is done, the
    last one read, or up to the end of the reply. *)
Inductive completes : Inference → list string → Prop :=
| completes_done before content after :
    Forall reads_on before →
    completes (Lines (before ++ Chunk content true :: after))
      (omap fragment (before ++ [Chunk content true]))
| completes_end before :
    Forall reads_on before →
    completes (Lines before) (omap fragment before).

(** A store stamped by a clock that ran ahead, and a clock that steps
    back between the two inserts of a chat call. *)
Module Late.
Definition turns : list Message.t :=
  (λ i : nat,
     Message.mk (Z.of_nat i) 1 (if Nat.even i then "ai" else "user")
       ("turn " +:+ pretty (Z.of_nat i)) (200 + Z.of_nat i))
  <$> seq 1 10.

Definition db : DB :=
  mkDB (users Sample.accounts) [Conversation.mk 1 1 "Trip" 5] turns.

End Late.

(** * Properties *)

(** A property that a check finds true of every row holds of each. *)
Lemma checked_all {A} (P : A → Prop) `{!∀ x, Decision (P x)} (l : list A) :
  forallb (λ x, bool_decide (P x)) l = true → ∀ x, x ∈ l → P x.
Proof.
  rewrite forallb_forall. intros Hall x Hx%list_elem_of_In.
  apply Hall in Hx. by apply bool_decide_eq_true in Hx.
Qed.


(** ** Ordered queries *)

Section OrderByFacts.
Context {A : Type} (key : A → Z).

Lemma place_perm before x (rows : list A) :
  place key before x rows ≡ₚ x :: rows.
Proof.
  induction rows as [|y rest IH]; simpl; [done|].
  destruct (before (key x) (key y)); [done|].
  rewrite IH. apply Permutation_swap.
Qed.

Lemma order_by_perm before (rows : list A) :
  order_by key before rows ≡ₚ rows.
Proof.
  induction rows as [|x rest IH]; simpl; [done|].
  by rewrite place_perm, IH.
Qed.

Lemma order_by_length before (rows : list A) :
  length (order_by key before rows) = length rows.
Proof. by rewrite order_by_perm. Qed.

Lemma order_by_elem_of before (rows : list A) x :
  x ∈ order_by key before rows ↔ x ∈ rows.
Proof. by rewrite order_by_perm. Qed.



Lemma order_by_snoc_first before (rows : list A) z :
  (∀ y, y ∈ rows → before (key y) (key z) = false) →
  order_by key before (rows ++ [z]) = z :: order_by key before rows.
Proof.
  induction rows as [|x rest IH]; intros Hz; simpl; [done|].
  rewrite IH by (intros; apply Hz; set_solver).
  simpl. rewrite Hz by set_solver. done.
Qed.

(** The result is sorted when [before] is a total preorder on keys. *)
Section Sorted.
Context (before : Z → Z → bool).
Hypothesis before_total : ∀ a b, before a b = false → before b a = true.
Hypothesis before_trans :
  ∀ a b c, before a b = true → before b c = true → before a c = true.

Let R (x y : A) : Prop := before (key x) (key y) = true.

Lemma place_sorted x (rows : list A) :
  StronglySorted R rows → StronglySorted R (place key before x rows).
Proof.
  induction 1 as [|y rest Hrest IH Hy]; simpl.
  - repeat constructor.
  - destruct (before (key x) (key y)) eqn:Hxy.
    + constructor; [by constructor|].
      constructor; [done|].
      eapply Forall_impl; [exact Hy|]. intros z Hz.
      unfold R in *. eauto.
    + constructor; [done|].
      rewrite (place_perm before x rest). constructor; [|done].
      by apply before_total.
Qed.

Lemma order_by_sorted (rows : list A) :
  StronglySorted R (order_by key before rows).
Proof.
  induction rows as [|x rest IH]; simpl; [constructor|].
  by apply place_sorted.
Qed.
End Sorted.
End OrderByFacts.

Lemma StronglySorted_reverse {A} (R : relation A) (l : list A) :
  StronglySorted R l → StronglySorted (flip R) (reverse l).
Proof.
  induction 1 as [|x l Hl IH Hx]; [constructor|].
  rewrite reverse_cons. apply StronglySorted_app_2; [|exact IH|].
  2: { apply SSorted_cons; [apply SSorted_nil|apply Forall_nil_2]. }
  intros y z Hy Hz. apply list_elem_of_singleton in Hz as ->.
  rewrite elem_of_reverse in Hy. rewrite Forall_forall in Hx.
  exact (Hx _ Hy).
Qed.

Lemma StronglySorted_take {A} (R : relation A) n (l : list A) :
  StronglySorted R l → StronglySorted R (take n l).
Proof.
  intros Hl. rewrite <-(take_drop n l) in Hl.
  by apply StronglySorted_app_1_l in Hl.
Qed.

(** ** Strings *)

Lemma app_String a (s1 s2 : string) :
  String a s1 +:+ s2 = String a (s1 +:+ s2).
Proof. reflexivity. Qed.

Lemma app_empty_l (s : string) : "" +:+ s = s.
Proof. reflexivity. Qed.

Lemma app_empty_r (s : string) : s +:+ "" = s.
Proof.
  induction s as [|a s IH]; [done|]. by rewrite app_String, IH.
Qed.

Lemma app_assoc_string (s1 s2 s3 : string) :
  (s1 +:+ s2) +:+ s3 = s1 +:+ (s2 +:+ s3).
Proof.
  induction s1 as [|a s1 IH]; [done|]. by rewrite !app_String, IH.
Qed.

Lemma length_app_string (s1 s2 : string) :
  String.length (s1 +:+ s2) = (String.length s1 + String.length s2)%nat.
Proof.
  induction s1 as [|a s1 IH]; [done|].
  rewrite app_String. simpl. by rewrite IH.
Qed.

(** [s[:n]] has [n] characters when [s] has that many. *)
Lemma length_slice (n : nat) (s : string) :
  (n ≤ String.length s)%nat → String.length (substring 0 n s) = n.
Proof.
  revert s. induction n as [|n IH]; intros [|a s] Hn; simpl in *;
    [done|done|lia|].
  rewrite IH; [done|lia].
Qed.

(** [s[:n]] is where [s] starts. *)
Lemma slice_prefix (n : nat) (s : string) :
  ∃ rest, s = substring 0 n s +:+ rest.
Proof.
  revert s. induction n as [|n IH]; intros [|a s]; simpl.
  - by exists "".
  - by exists (String a s).
  - by exists "".
  - destruct (IH s) as [rest Hrest]. exists rest.
    by rewrite app_String, <-Hrest.
Qed.

(** ** The relay loop *)

Lemma relay_accumulates lines full :
  ∃ contents,
    relay lines full
    = (content_frame <$> contents, full +:+ join contents, (relay lines full).2).
Proof.
  revert full. induction lines as [|l rest IH]; intros full; simpl.
  - exists []. by rewrite app_empty_r.
  - destruct l as [|content done|e].
    + apply IH.
    + destruct done.
      * destruct content as [c|]; [exists [c]|exists []]; simpl;
          by rewrite ?app_empty_r.
      * destruct content as [c|].
        -- destruct (IH (full +:+ c)) as [cs Hcs].
           destruct (relay rest (full +:+ c)) as [[fs f] r].
           simpl in *. exists (c :: cs). simplify_eq. simpl.
           by rewrite app_assoc_string.
        -- destruct (IH full) as [cs Hcs].
           destruct (relay rest full) as [[fs f] r].
           simpl in *. exists cs. by simplify_eq.
    + exists []. by rewrite app_empty_r.
Qed.

Lemma relay_raises lines full e :
  (relay lines full).2 = Some e ↔
  ∃ before after, lines = before ++ Broken e :: after ∧ Forall reads_on before.
Proof.
  revert full. induction lines as [|l rest IH]; intros full; simpl.
  - split; [done|]. intros (b & a & Heq & _). by destruct b.
  - destruct l as [|content done|e'].
    + rewrite IH. split.
      * intros (b & a & -> & Hb). exists (Blank :: b), a.
        split; [done|]. constructor; [constructor|done].
      * intros (b & a & Heq & Hb). destruct b as [|l b]; simplify_eq/=.
        exists b, a. split; [done|]. by inv Hb.
    + destruct done; simpl.
      * split; [done|]. intros (b & a & Heq & Hb).
        destruct b as [|l b]; simplify_eq/=. inv Hb.
        match goal with H : reads_on _ |- _ => inv H end.
      * destruct (relay rest _) as [[fs f] r] eqn:Hrest. simpl.
        specialize (IH (match content with
                        | Some c => full +:+ c | None => full end)).
        rewrite Hrest in IH. simpl in IH. rewrite IH. split.
        -- intros (b & a & -> & Hb). exists (Chunk content false :: b), a.
           split; [done|]. constructor; [constructor|done].
        -- intros (b & a & Heq & Hb). destruct b as [|l b]; simplify_eq/=.
           exists b, a. split; [done|]. by inv Hb.
    + simpl. split.
      * intros [= ->]. by exists [], rest.
      * intros (b & a & Heq & Hb). destruct b as [|l b]; simplify_eq/=;
          [done|]. inv Hb. match goal with H : reads_on _ |- _ => inv H end.
Qed.

Lemma stream_inference_raises reply e :
  (stream_inference reply).2 = Some e ↔ fails_with reply e.
Proof.
  destruct reply as [e'|e'|lines]; simpl.
  - split; [intros [= ->]; constructor|by inversion 1].
  - split; [intros [= ->]; constructor|by inversion 1].
  - rewrite relay_raises. split.
    + intros (b & a & -> & Hb). by constructor.
    + inversion 1; eauto.
Qed.

Lemma stream_inference_accumulates reply :
  ∃ contents,
    stream_inference reply
    = (content_frame <$> contents, join contents, (stream_inference reply).2).
Proof.
  destruct reply as [e|e|lines]; simpl; [by exists []..|].
  destruct (relay_accumulates lines "") as [cs Hcs]. by exists cs.
Qed.

Lemma relay_reads_on before full :
  Forall reads_on before →
  relay before full
  = (content_frame <$> omap fragment before,
     full +:+ join (omap fragment before), None).
Proof.
  intros Hb. revert full. induction Hb as [|l rest Hl Hrest IH]; intros full.
  - simpl. by rewrite app_empty_r.
  - destruct Hl as [|[c|]]; simpl.
    + apply IH.
    + rewrite IH. simpl. by rewrite app_assoc_string.
    + by rewrite IH.
Qed.

Lemma relay_reads_to_done before content after full :
  Forall reads_on before →
  relay (before ++ Chunk content true :: after) full
  = (content_frame <$> omap fragment (before ++ [Chunk content true]),
     full +:+ join (omap fragment (before ++ [Chunk content true])), None).
Proof.
  intros Hb. revert full. induction Hb as [|l rest Hl Hrest IH]; intros full.
  - destruct content as [c|]; simpl; by rewrite ?app_empty_r.
  - destruct Hl as [|[c|]]; simpl.
    + apply IH.
    + rewrite IH. simpl. by rewrite app_assoc_string.
    + by rewrite IH.
Qed.

Lemma stream_inference_completes reply contents :
  completes reply contents →
  stream_inference reply = (content_frame <$> contents, join contents, None).
Proof.
  intros [before content after Hb|before Hb]; simpl.
  - by rewrite relay_reads_to_done.
  - by rewrite relay_reads_on.
Qed.

(** How far the loop gets in a reply: to a line that raises, to the
    line that says the reply is done, or to the end. *)
Lemma lines_outcome (lines : list Line) :
  (∃ before e after,
     lines = before ++ Broken e :: after ∧ Forall reads_on before) ∨
  (∃ before content after,
     lines = before ++ Chunk content true :: after ∧ Forall reads_on before) ∨
  Forall reads_on lines.
Proof.
  induction lines as [|l rest IH]; [by right; right|].
  assert (reads_on l →
          (∃ before e after,
             l :: rest = before ++ Broken e :: after ∧ Forall reads_on before) ∨
          (∃ before content after,
             l :: rest = before ++ Chunk content true :: after
             ∧ Forall reads_on before) ∨
          Forall reads_on (l :: rest)) as Hstep.
  { intros Hl.
    destruct IH as [(b & e & a & -> & Hb)|[(b & c & a & -> & Hb)|Hall]].
    - left. exists (l :: b), e, a. split; [done|by constructor].
    - right. left. exists (l :: b), c, a. split; [done|by constructor].
    - right. right. by constructor. }
  destruct l as [|content fin|e].
  - apply Hstep. constructor.
  - destruct fin; [|apply Hstep; constructor].
    right. left. by exists [], content, rest.
  - left. by exists [], e, rest.
Qed.

(** An inference call fails or runs to its end, and not both. *)
Lemma fails_or_completes reply :
  (∃ e, fails_with reply e) ∨ (∃ contents, completes reply contents).
Proof.
  destruct reply as [e|e|lines]; [left; eexists; constructor..|].
  destruct (lines_outcome lines)
    as [(b & e & a & -> & Hb)|[(b & c & a & -> & Hb)|Hall]].
  - left. exists e. by constructor.
  - right. eexists. by constructor.
  - right. eexists. by constructor.
Qed.

Lemma completes_never_fails reply contents e :
  completes reply contents → ¬ fails_with reply e.
Proof.
  intros Hc%stream_inference_completes Hf%stream_inference_raises.
  by rewrite Hc in Hf.
Qed.

(** ** The generator, event by event *)

Lemma frames_cons e (body : list Event) :
  frames (e :: body)
  = match e with Yield f => f :: frames body | _ => frames body end.
Proof. by destruct e. Qed.

Lemma posts_cons e (body : list Event) :
  posts (e :: body)
  = match e with Post msgs => msgs :: posts body | _ => posts body end.
Proof. by destruct e. Qed.

Lemma run_events_cons db e (body : list Event) :
  run_events db (e :: body)
  = run_events (match e with Commit db' => db' | _ => db end) body.
Proof. by destruct e. Qed.

Lemma frames_app (b1 b2 : list Event) :
  frames (b1 ++ b2) = frames b1 ++ frames b2.
Proof. apply omap_app. Qed.

Lemma frames_yields (fs : list json) : frames (Yield <$> fs) = fs.
Proof. induction fs as [|f fs IH]; [done|]. simpl. by f_equal. Qed.

Lemma posts_app (b1 b2 : list Event) :
  posts (b1 ++ b2) = posts b1 ++ posts b2.
Proof. apply omap_app. Qed.

Lemma posts_yields (fs : list json) : posts (Yield <$> fs) = [].
Proof. by induction fs. Qed.

Lemma run_events_app db (b1 b2 : list Event) :
  run_events db (b1 ++ b2) = run_events (run_events db b1) b2.
Proof. apply foldl_app. Qed.

Lemma run_events_yields db (fs : list json) :
  run_events db (Yield <$> fs) = db.
Proof. revert db. induction fs as [|f fs IH]; intros db; [done|]. apply IH. Qed.

Section Generator.
Context (w : World) (conversation_id : Z) (user_message : Message.t) (db : DB).

Let sent := ollama_message <$> history conversation_id db.
Let raised := (stream_inference (ollama w sent)).2.

Lemma event_generator_shape :
  ∃ contents,
    let ai_message :=
      Message.mk (next_id (Message.id <$> messages db)) conversation_id
        "ai" (reply_text raised contents) (ai_message_now w) in
    (stream_inference (ollama w sent)).1.1 = content_frame <$> contents ∧
    event_generator w conversation_id user_message db
    = Yield (meta_frame conversation_id user_message)
        :: Post sent
        :: (Yield <$> (content_frame <$> contents))
        ++ (Yield <$> (error_frame <$> error_texts raised))
        ++ [Commit (mkDB (users db) (conversations db)
                      (messages db ++ [ai_message]));
            Yield (done_frame ai_message)].
Proof.
  destruct (stream_inference_accumulates (ollama w sent)) as [cs Hcs].
  exists cs. unfold event_generator. fold sent. rewrite Hcs. fold raised.
  split; [done|]. by destruct raised.
Qed.
End Generator.

(** ** What a chat call that streams has done before it streams *)

Lemma resolve_conversation_keeps w req db_user db db1 cid :
  resolve_conversation w req db_user db = Some (db1, cid) →
  users db1 = users db ∧ messages db1 = messages db.
Proof.
  unfold resolve_conversation. destruct (falsy _).
  - intros [= <- <-]. done.
  - destruct (owned_conversation _ _ _); intros [= <- <-]; done.
Qed.

Lemma chat_streams w req session db db' body :
  chat w req session db = (db', StreamingResponse body) →
  ∃ db_user db1 cid,
    let user_message :=
      Message.mk (next_id (Message.id <$> messages db)) cid "user"
        (ChatRequest.message req) (user_message_now w) in
    get_current_user_from_session session db = Return (Some db_user) ∧
    resolve_conversation w req db_user db = Some (db1, cid) ∧
    db' = mkDB (users db) (conversations db1) (messages db ++ [user_message]) ∧
    body = event_generator w cid user_message db'.
Proof.
  unfold chat, authenticated.
  destruct (get_current_user_from_session session db) as [[db_user|]|];
    [|done..].
  destruct (resolve_conversation w req db_user db) as [[db1 cid]|] eqn:Hres;
    [|done].
  intros [= <- <-]. exists db_user, db1, cid.
  apply resolve_conversation_keeps in Hres as Hkeep.
  destruct Hkeep as [-> ->]. done.
Qed.

(** ** The frames of a chat stream *)

Lemma frame_type_contents (contents : list string) :
  frame_type <$> (content_frame <$> contents)
  = replicate (length contents) (Some "content").
Proof. induction contents as [|c cs IH]; [done|]. simpl. by f_equal. Qed.

Lemma frame_type_errors raised :
  frame_type <$> (error_frame <$> error_texts raised)
  = if bool_decide (is_Some raised) then [Some "error"] else [].
Proof. by destruct raised. Qed.


(** The frames of the generator, and the store it leaves. *)
Lemma event_generator_frames w cid um db :
  ∃ contents,
    let raised :=
      (stream_inference (ollama w (ollama_message <$> history cid db))).2 in
    let ai_message :=
      Message.mk (next_id (Message.id <$> messages db)) cid
        "ai" (reply_text raised contents) (ai_message_now w) in
    frames (event_generator w cid um db)
    = meta_frame cid um
        :: (content_frame <$> contents)
        ++ (error_frame <$> error_texts raised)
        ++ [done_frame ai_message] ∧
    posts (event_generator w cid um db)
    = [ollama_message <$> history cid db] ∧
    run_events db (event_generator w cid um db)
    = mkDB (users db) (conversations db) (messages db ++ [ai_message]) ∧
    Forall (λ e, ∀ d, e = Commit d →
              d = mkDB (users db) (conversations db)
                    (messages db ++ [ai_message]))
      (event_generator w cid um db).
Proof.
  destruct (event_generator_shape w cid um db) as (cs & _ & ->).
  exists cs. cbv zeta. split_and!.
  - rewrite !frames_cons, !frames_app, !frames_yields. done.
  - rewrite !posts_cons, !posts_app, !posts_yields. done.
  - rewrite !run_events_cons, !run_events_app, !run_events_yields. done.
  - repeat apply Forall_cons_2; try (intros d [=]; done).
    rewrite !Forall_app. split_and!.
    + apply Forall_fmap, Forall_true. by intros f d [=].
    + apply Forall_fmap, Forall_true. by intros f d [=].
    + repeat apply Forall_cons_2; [by intros d [= <-]|by intros d [=]|].
      constructor.
Qed.

(** The generator on the outcome of the inference call, as the call
    gives it. *)
Lemma event_generator_run w cid um db :
  let sent := ollama_message <$> history cid db in
  let out := stream_inference (ollama w sent) in
  let ai_message :=
    Message.mk (next_id (Message.id <$> messages db)) cid "ai"
      (match out.2 with
       | Some e => "Ollama Connection Error: " +:+ e
       | None => out.1.2
       end) (ai_message_now w) in
  frames (event_generator w cid um db)
  = meta_frame cid um
      :: out.1.1 ++ (error_frame <$> error_texts out.2)
      ++ [done_frame ai_message] ∧
  posts (event_generator w cid um db) = [sent] ∧
  run_events db (event_generator w cid um db)
  = mkDB (users db) (conversations db) (messages db ++ [ai_message]).
Proof.
  cbv zeta. unfold event_generator.
  destruct (stream_inference _) as [[fs full] raised]. simpl.
  destruct raised as [e|]; simpl;
    rewrite ?frames_cons, ?posts_cons, ?run_events_cons, ?frames_app,
      ?posts_app, ?run_events_app, ?frames_yields, ?posts_yields,
      ?run_events_yields; done.
Qed.

(** C1: a chat call that reaches the streaming phase has committed the
    user's message before its generator yields anything: the store the
    handler returns holds it, the first event of the body is the "meta"
    frame, and every store committed later still holds it.  The frames
    are one "meta", then any number of "content", then an "error" if the
    call failed, then one "done". *)
Theorem chat_stream_ordered w req session db db' body :
  chat w req session db = (db', StreamingResponse body) →
  ∃ cid user_message n (failed : bool),
    messages db' = messages db ++ [user_message] ∧
    Message.sender user_message = "user" ∧
    Message.content user_message = ChatRequest.message req ∧
    head body = Some (Yield (meta_frame cid user_message)) ∧
    Forall (λ e, ∀ d, e = Commit d → user_message ∈ messages d) body ∧
    frame_type <$> frames body
    = [Some "meta"] ++ replicate n (Some "content")
      ++ (if failed then [Some "error"] else []) ++ [Some "done"].
Proof.
  intros (db_user & db1 & cid & _ & _ & -> & ->)%chat_streams.
  set (um := Message.mk _ cid "user" _ _).
  set (db' := mkDB _ _ _).
  destruct (event_generator_frames w cid um db') as (cs & Hfr & _ & _ & Hco).
  destruct (event_generator_shape w cid um db') as (cs' & _ & Hshape).
  exists cid, um, (length cs),
    (bool_decide (is_Some (stream_inference
       (ollama w (ollama_message <$> history cid db'))).2)).
  split_and!; try done.
  - by rewrite Hshape.
  - eapply Forall_impl; [exact Hco|]. intros e He d ->.
    rewrite (He d eq_refl). simpl. set_solver.
  - rewrite Hfr. simpl. f_equal.
    rewrite !fmap_app, frame_type_contents, frame_type_errors. done.
Qed.


(** ** The context window *)

Lemma StronglySorted_mono {A} (R1 R2 : relation A) (l : list A) :
  (∀ a b, R1 a b → R2 a b) → StronglySorted R1 l → StronglySorted R2 l.
Proof.
  intros HR. induction 1 as [|x l Hl IH Hx]; constructor; [done|].
  eapply Forall_impl; [exact Hx|]. auto.
Qed.

Lemma history_length cid db :
  length (history cid db) = (10 `min` length (messages_of cid db))%nat.
Proof.
  unfold history, limit.
  by rewrite length_reverse, length_take, order_by_length.
Qed.

Lemma history_subseteq cid db : history cid db ⊆ messages_of cid db.
Proof.
  unfold history, limit. intros m. rewrite elem_of_reverse.
  intros Hm%subseteq_take. by apply order_by_elem_of in Hm.
Qed.

Lemma history_chronological cid db : chronological (history cid db).
Proof.
  unfold history, limit, chronological.
  eapply StronglySorted_mono; last first.
  - apply StronglySorted_reverse, StronglySorted_take.
    apply (order_by_sorted Message.timestamp desc); unfold desc.
    + intros a b Hab. apply Z.leb_le. apply Z.leb_gt in Hab. lia.
    + intros a b c Hab%Z.leb_le Hbc%Z.leb_le. apply Z.leb_le. lia.
  - intros a b Hab. unfold flip, desc in Hab. by apply Z.leb_le.
Qed.

(** No message left out of the window is later than one in it. *)
Lemma history_most_recent cid db m m' :
  m ∈ messages_of cid db → m ∉ history cid db → m' ∈ history cid db →
  Message.timestamp m ≤ Message.timestamp m'.
Proof.
  unfold history, limit. rewrite !elem_of_reverse. intros Hm Hout Hin.
  set (sorted := order_by Message.timestamp desc (messages_of cid db)) in *.
  assert (StronglySorted
            (λ a b, desc (Message.timestamp a) (Message.timestamp b) = true)
            (take 10 sorted ++ drop 10 sorted)) as Hs.
  { rewrite take_drop. apply (order_by_sorted Message.timestamp desc);
      unfold desc.
    - intros a b Hab. apply Z.leb_le. apply Z.leb_gt in Hab. lia.
    - intros a b c Hab%Z.leb_le Hbc%Z.leb_le. apply Z.leb_le. lia. }
  apply (order_by_elem_of Message.timestamp desc) in Hm. fold sorted in Hm.
  rewrite <-(take_drop 10 sorted), elem_of_app in Hm.
  destruct Hm as [Hm|Hm]; [done|].
  apply Z.leb_le.
  exact (StronglySorted_app_1_elem_of _ _ _ _ _ Hs Hin Hm).
Qed.

(** A message later than all the others of its conversation closes the
    window. *)
Lemma history_newest cid (rows : list Message.t) users convs m :
  Message.conversation_id m = cid →
  (∀ m', m' ∈ rows → Message.conversation_id m' = cid →
         Message.timestamp m' < Message.timestamp m) →
  last (history cid (mkDB users convs (rows ++ [m]))) = Some m.
Proof.
  intros Hcid Hlater. unfold history, limit, messages_of. simpl.
  rewrite filter_app, filter_cons_True, filter_nil by done.
  rewrite order_by_snoc_first.
  - simpl. rewrite reverse_cons. apply last_snoc.
  - intros m' [Hm' Hc]%list_elem_of_filter. unfold desc.
    apply Z.leb_gt. by apply Hlater.
Qed.

Lemma ollama_message_role (m : Message.t) :
  jget "role" (ollama_message m)
  = Some (JStr (if decide (Message.sender m = "user")
                then "user" else "assistant")) ∧
  jget "content" (ollama_message m) = Some (JStr (Message.content m)).
Proof. done. Qed.

(** C3, as the code has it: the messages a chat call posts to the inference service are those
    of a window of at most 10 messages of the conversation, the most
    recent ones, oldest first, each with role "user" when its sender is
    "user" and role "assistant" otherwise.  When the clock stamps the
    submitted message later than every message the conversation already
    holds, that message is the last entry of the window, in a
    conversation of 10 messages or more as in a shorter one. *)
Theorem context_window w req session db db' body :
  chat w req session db = (db', StreamingResponse body) →
  ∃ cid user_message window,
    head body = Some (Yield (meta_frame cid user_message)) ∧
    messages db' = messages db ++ [user_message] ∧
    posts body = [ollama_message <$> window] ∧
    (length window ≤ 10)%nat ∧
    length window = (10 `min` length (messages_of cid db'))%nat ∧
    window ⊆ messages_of cid db' ∧
    (∀ m m', m ∈ messages_of cid db' → m ∉ window → m' ∈ window →
             Message.timestamp m ≤ Message.timestamp m') ∧
    chronological window ∧
    Forall (λ m,
      jget "role" (ollama_message m)
      = Some (JStr (if decide (Message.sender m = "user")
                    then "user" else "assistant")) ∧
      jget "content" (ollama_message m) = Some (JStr (Message.content m)))
      window ∧
    ((∀ m, m ∈ messages_of cid db →
           Message.timestamp m < user_message_now w) →
     last window = Some user_message).
Proof.
  intros (db_user & db1 & cid & _ & _ & -> & ->)%chat_streams.
  set (um := Message.mk _ cid "user" _ _).
  set (db' := mkDB _ _ _).
  destruct (event_generator_frames w cid um db') as (cs & _ & Hpo & _ & _).
  destruct (event_generator_shape w cid um db') as (cs' & _ & Hshape).
  exists cid, um, (history cid db'). split_and!.
  - by rewrite Hshape.
  - done.
  - done.
  - rewrite history_length. lia.
  - apply history_length.
  - apply history_subseteq.
  - apply history_most_recent.
  - apply history_chronological.
  - apply Forall_true. intros m. apply ollama_message_role.
  - intros Hlater. apply history_newest; [done|].
    intros m' Hm' Hc. apply Hlater. by apply list_elem_of_filter.
Qed.

(** ** One chat turn in the store *)



(** ** Sessions and authentication *)

Lemma user_by_google_id_None sub db :
  user_by_google_id sub db = None ↔
  ∀ u, u ∈ users db → User.google_id u ≠ sub.
Proof.
  unfold user_by_google_id, first. rewrite head_None. split.
  - intros Hnil u Hu Heq.
    assert (u ∈ filter (λ u, User.google_id u = sub) (users db)) as Hin
      by by apply list_elem_of_filter.
    rewrite Hnil in Hin. by apply not_elem_of_nil in Hin.
  - intros Hno. apply elem_of_nil_inv. intros u [Heq Hu]%list_elem_of_filter.
    by apply (Hno u).
Qed.

Lemma truthy_lookup (claims : Claims) key v :
  claims !! key = Some v → truthy (Some claims) = true.
Proof.
  intros Hk. simpl. apply bool_decide_eq_true. intros ->.
  by rewrite lookup_empty in Hk.
Qed.

(** The sessions that resolve to no user row: no user in the cookie, or
    a subject no row of the table has. *)
Lemma session_unresolved session db :
  get_current_user_from_session session db = Return None ↔
  truthy session = false ∨
  ∃ claims sub, session = Some claims ∧ claims !! "sub" = Some sub ∧
                ∀ u, u ∈ users db → User.google_id u ≠ sub.
Proof.
  unfold get_current_user_from_session.
  destruct (truthy session) eqn:Ht; simpl.
  - destruct session as [claims|]; [|done]. simpl.
    destruct (claims !! "sub") as [sub|] eqn:Hsub.
    + split.
      * intros [= Hnone]. right. exists claims, sub.
        by rewrite <-user_by_google_id_None.
      * intros [|(c & s & [= <-] & Hs & Hno)]; [done|].
        rewrite Hsub in Hs. simplify_eq.
        f_equal. by apply user_by_google_id_None.
    + split; [done|]. intros [|(c & s & [= <-] & Hs & _)]; [done|].
      by rewrite Hsub in Hs.
  - split; [by left|done].
Qed.

(** The cookie [auth] leaves always names a subject: the lookup of
    [get_current_user_from_session] cannot fail on it. *)
Lemma auth_session_has_sub user now session db db' claims :
  auth user now session db = (db', Some claims, RedirectResponse
                                "http://localhost:3000/chat") →
  is_Some (claims !! "sub").
Proof.
  unfold auth. destruct (truthy user) eqn:Ht; [|done].
  destruct user as [c|]; [|done]. simpl.
  destruct (c !! "sub") as [sub|] eqn:Hsub; [|done].
  destruct (user_by_google_id sub db).
  - intros [= <- <-]. by rewrite Hsub.
  - destruct (c !! "email"); [|done]. case_bool_decide; [done|].
    intros [= <- <-]. by rewrite Hsub.
Qed.

(** C6: when the session resolves to no user row, each of the five
    protected endpoints answers 401 "Not authenticated" and leaves the
    store as it was. *)
Theorem unauthenticated_rejected w title now cid req session db :
  get_current_user_from_session session db = Return None →
  let denied := (db, HTTPException 401 "Not authenticated") in
  get_conversations session db = denied ∧
  create_conversation title now session db = denied ∧
  delete_conversation cid session db = denied ∧
  get_messages cid session db = denied ∧
  chat w req session db = denied ∧
  status denied.2 = 401 ∧
  delivered denied = db.
Proof.
  intros Hnone. cbv zeta.
  unfold get_conversations, create_conversation, delete_conversation,
    get_messages, chat, authenticated.
  rewrite Hnone. done.
Qed.

Lemma auth_known_user (claims : Claims) sub u now session db :
  claims !! "sub" = Some sub →
  u ∈ users db →
  User.google_id u = sub →
  auth (Some claims) now session db
  = (db, Some claims, RedirectResponse "http://localhost:3000/chat").
Proof.
  intros Hsub Hu Hg. unfold auth.
  rewrite (truthy_lookup _ _ _ Hsub). simpl. rewrite Hsub.
  destruct (user_by_google_id sub db) eqn:Hfind; [done|].
  rewrite user_by_google_id_None in Hfind. by destruct (Hfind u Hu).
Qed.

(** C8: a callback whose subject already has a user row redirects to the
    chat page and returns the store it was given: the users table after
    the callback is the table before it, no row added and none changed. *)
Theorem auth_known_user_keeps_store (claims : Claims) sub u now session db :
  claims !! "sub" = Some sub →
  u ∈ users db →
  User.google_id u = sub →
  auth (Some claims) now session db
  = (db, Some claims, RedirectResponse "http://localhost:3000/chat")
  ∧ users (auth (Some claims) now session db).1.1 = users db.
Proof.
  intros Hsub Hu Hg. by rewrite (auth_known_user claims sub u).
Qed.

(** A first callback that succeeds makes the second one leave the store
    alone. *)
Lemma auth_twice (claims : Claims) now now' session db db' session' :
  auth (Some claims) now session db
  = (db', session', RedirectResponse "http://localhost:3000/chat") →
  auth (Some claims) now' session' db'
  = (db', Some claims, RedirectResponse "http://localhost:3000/chat").
Proof.
  unfold auth at 1. destruct (truthy (Some claims)) eqn:Ht; [|done].
  simpl. destruct (claims !! "sub") as [sub|] eqn:Hsub; [|done].
  destruct (user_by_google_id sub db) as [u|] eqn:Hfind.
  - intros [= <- <-]. unfold user_by_google_id, first in Hfind.
    apply head_Some_elem_of, list_elem_of_filter in Hfind as [Hg Hu].
    by eapply auth_known_user.
  - destruct (claims !! "email") as [email|]; [|done].
    case_bool_decide; [done|]. intros [= <- <-].
    unfold add_user.
    eapply (auth_known_user _ sub (User.mk _ sub _ _ _ _ _));
      [done| |done].
    simpl. apply elem_of_app. right. by apply list_elem_of_singleton.
Qed.

(** C9: when the provider returns no claims, [None] or an empty dict,
    the callback answers with the body [{"error": "Authentication
    failed"}] under status 200, and neither the store nor the session
    changes. *)
Theorem auth_without_claims user now session db :
  truthy user = false →
  auth user now session db
  = (db, session, JSONResponse (JObj [("error", JStr "Authentication failed")]))
  ∧ status (auth user now session db).2 = 200.
Proof. intros Ht. unfold auth. rewrite Ht. done. Qed.

(** ** Conversations of other users *)

Lemma owned_conversation_None cid uid db :
  owned_conversation cid uid db = None ↔ not_owned cid uid db.
Proof.
  unfold owned_conversation, first, not_owned. rewrite head_None. split.
  - intros Hnil c Hc Hid Huid.
    assert (c ∈ filter (λ c, Conversation.id c = cid
                             ∧ Conversation.user_id c = uid)
                  (conversations db)) as Hin
      by by apply list_elem_of_filter.
    rewrite Hnil in Hin. by apply not_elem_of_nil in Hin.
  - intros Hno. apply elem_of_nil_inv.
    intros c [[Hid Huid] Hc]%list_elem_of_filter. by apply (Hno c).
Qed.

Lemma absent_not_owned cid uid db :
  (∀ c, c ∈ conversations db → Conversation.id c ≠ cid) →
  not_owned cid uid db.
Proof. intros Habsent c Hc Hid. by destruct (Habsent c Hc). Qed.

(** C5, as the code has it: a caller who asks for the messages of a
    conversation, or asks to delete it, gets the same answer, 404
    "Conversation not found" with the store untouched, in a store where
    the conversation does not exist and in a store where it is another
    user's; and so does a caller of the chat endpoint who names the
    conversation by an id other than 0. *)
Theorem foreign_conversation_hidden w message session db1 db2 u1 u2 cid :
  get_current_user_from_session session db1 = Return (Some u1) →
  get_current_user_from_session session db2 = Return (Some u2) →
  (∀ c, c ∈ conversations db1 → Conversation.id c ≠ cid) →
  not_owned cid (User.id u2) db2 →
  let not_found := HTTPException 404 "Conversation not found" in
  get_messages cid session db1 = (db1, not_found) ∧
  get_messages cid session db2 = (db2, not_found) ∧
  delete_conversation cid session db1 = (db1, not_found) ∧
  delete_conversation cid session db2 = (db2, not_found) ∧
  (cid ≠ 0 →
   chat w (ChatRequest.mk message (Some cid)) session db1 = (db1, not_found) ∧
   chat w (ChatRequest.mk message (Some cid)) session db2 = (db2, not_found)).
Proof.
  intros Hu1 Hu2 Habsent%(absent_not_owned _ (User.id u1)) Hforeign.
  apply owned_conversation_None in Habsent, Hforeign. cbv zeta.
  unfold get_messages, delete_conversation, chat, authenticated,
    resolve_conversation.
  rewrite Hu1, Hu2, Habsent, Hforeign. simpl. split_and!; try done.
  intros Hcid. rewrite bool_decide_eq_false_2 by done. simpl.
  by rewrite Habsent, Hforeign.
Qed.

(** ** Conversations the chat endpoint creates *)

Lemma chat_creates w req session db db_user :
  get_current_user_from_session session db = Return (Some db_user) →
  falsy (ChatRequest.conversation_id req) = true →
  let new_conversation :=
    Conversation.mk (next_id (Conversation.id <$> conversations db))
      (User.id db_user) (auto_title (ChatRequest.message req))
      (conversation_now w) in
  let user_message :=
    Message.mk (next_id (Message.id <$> messages db))
      (Conversation.id new_conversation) "user" (ChatRequest.message req)
      (user_message_now w) in
  let db' :=
    mkDB (users db) (conversations db ++ [new_conversation])
      (messages db ++ [user_message]) in
  chat w req session db
  = (db', StreamingResponse
            (event_generator w (Conversation.id new_conversation)
               user_message db')).
Proof.
  intros Hu Hfalsy. unfold chat, authenticated, resolve_conversation.
  rewrite Hu, Hfalsy. done.
Qed.

(** C7: a chat call without [conversation_id] adds a conversation of the
    caller whose title is the message itself when the message has at most
    50 characters, and otherwise its first 50 characters followed by
    ["..."], 53 characters in all. *)
Theorem auto_created_title w message session db db_user :
  get_current_user_from_session session db = Return (Some db_user) →
  ∃ new_conversation,
    conversations (chat w (ChatRequest.mk message None) session db).1
    = conversations db ++ [new_conversation] ∧
    Conversation.user_id new_conversation = User.id db_user ∧
    let title := Conversation.title new_conversation in
    ((String.length message ≤ 50)%nat → title = message) ∧
    ((50 < String.length message)%nat →
       title = substring 0 50 message +:+ "..." ∧
       String.length (substring 0 50 message) = 50%nat ∧
       (∃ rest, message = substring 0 50 message +:+ rest) ∧
       String.length title = 53%nat).
Proof.
  intros Hu.
  rewrite (chat_creates w (ChatRequest.mk message None) session db db_user Hu)
    by done.
  eexists. split; [done|]. split; [done|]. simpl. unfold auto_title.
  split.
  - intros Hshort. case_decide; [lia|done].
  - intros Hlong. case_decide; [|lia]. split_and!.
    + done.
    + apply length_slice. lia.
    + apply slice_prefix.
    + rewrite length_app_string, length_slice by lia. done.
Qed.

(** C10: a chat call with [conversation_id] 0 is the call without
    [conversation_id]: for an authenticated caller it adds a conversation
    of the caller, puts the user's message in it and streams, and it does
    not answer 404. *)
Theorem chat_zero_is_omitted w message session db db_user :
  get_current_user_from_session session db = Return (Some db_user) →
  chat w (ChatRequest.mk message (Some 0)) session db
  = chat w (ChatRequest.mk message None) session db ∧
  ∃ new_conversation user_message body,
    chat w (ChatRequest.mk message (Some 0)) session db
    = (mkDB (users db) (conversations db ++ [new_conversation])
         (messages db ++ [user_message]),
       StreamingResponse body) ∧
    Conversation.user_id new_conversation = User.id db_user ∧
    Conversation.title new_conversation = auto_title message ∧
    Message.conversation_id user_message = Conversation.id new_conversation ∧
    head body
    = Some (Yield (meta_frame (Conversation.id new_conversation) user_message)).
Proof.
  intros Hu.
  rewrite (chat_creates w (ChatRequest.mk message (Some 0)) session db db_user Hu)
    by done.
  rewrite (chat_creates w (ChatRequest.mk message None) session db db_user Hu)
    by done.
  split; [done|]. cbv zeta.
  set (c := Conversation.mk _ _ _ _). set (m := Message.mk _ _ _ _ _).
  set (d := mkDB _ _ _).
  exists c, m, (event_generator w (Conversation.id c) m d).
  split_and!; try done.
  by destruct (event_generator_shape w (Conversation.id c) m d) as (cs & _ & ->).
Qed.

(** ** The theorems at work on the sample store *)

Lemma sample_streams :
  Sample.answered
  = (Sample.answered.1, StreamingResponse (Sample.stream Sample.answered.2)).
Proof. vm_compute. reflexivity. Qed.

(** Alice's sixteenth message on a reply in two fragments: a "meta", two
    "content" and a "done" frame. *)
Lemma chat_stream_ordered_sample :
  ∃ cid user_message n (failed : bool),
    messages Sample.answered.1 = messages Sample.db ++ [user_message] ∧
    Message.sender user_message = "user" ∧
    Message.content user_message = "and then?" ∧
    head (Sample.stream Sample.answered.2)
    = Some (Yield (meta_frame cid user_message)) ∧
    Forall (λ e, ∀ d, e = Commit d → user_message ∈ messages d)
      (Sample.stream Sample.answered.2) ∧
    frame_type <$> frames (Sample.stream Sample.answered.2)
    = [Some "meta"] ++ replicate n (Some "content")
      ++ (if failed then [Some "error"] else []) ++ [Some "done"].
Proof.
  apply (chat_stream_ordered (Sample.world Sample.replies) Sample.request
           (Some Sample.alice) Sample.db).
  vm_compute. reflexivity.
Defined.


(** Fifteen earlier messages: the window has ten entries and the
    submitted message is the tenth. *)
Lemma context_window_sample :
  ∃ user_message window,
    messages Sample.answered.1 = messages Sample.db ++ [user_message] ∧
    posts (Sample.stream Sample.answered.2) = [ollama_message <$> window] ∧
    length window = 10%nat ∧
    chronological window ∧
    last window = Some user_message.
Proof.
  destruct (context_window (Sample.world Sample.replies) Sample.request
              (Some Sample.alice) Sample.db _ _ sample_streams)
    as (cid & um & window & Hhead & Hum & Hposts & _ & Hlen & _ & _
        & Hchrono & _ & Hlast).
  assert (cid = 1) as -> by (vm_compute in Hhead; congruence).
  exists um, window. split_and!; try done.
  apply Hlast.
  apply (checked_all (λ m, Message.timestamp m < 101)
           (messages_of 1 Sample.db)).
  vm_compute. reflexivity.
Defined.

(** Stored stamps later than the call's: the submitted message is not
    the last entry of the window, it is not in the window. *)
Lemma context_window_clock_behind :
  let out :=
    chat (Sample.world Sample.replies) Sample.request (Some Sample.alice)
      Late.db in
  let submitted := Message.mk 11 1 "user" "and then?" 101 in
  messages out.1 = messages Late.db ++ [submitted] ∧
  (10 ≤ length (messages_of 1 out.1))%nat ∧
  posts (Sample.stream out.2) = [ollama_message <$> history 1 out.1] ∧
  last (history 1 out.1) = Some (Message.mk 10 1 "ai" "turn 10" 210) ∧
  last (history 1 out.1) ≠ Some submitted ∧
  Forall (λ m, m ≠ submitted) (history 1 out.1).
Proof.
  cbv zeta. split_and!.
  - vm_compute. reflexivity.
  - vm_compute. lia.
  - vm_compute. reflexivity.
  - vm_compute. reflexivity.
  - vm_compute. discriminate.
  - vm_compute. repeat (constructor; [discriminate|]). constructor.
Qed.



(** With [conversation_id] 0 the chat endpoint does not answer 404,
    though the store has no conversation 0: it streams. *)
Lemma chat_zero_not_hidden :
  let answer :=
    chat (Sample.world Sample.replies) (ChatRequest.mk "hi" (Some 0))
      (Some Sample.alice) Sample.db in
  (∀ c, c ∈ conversations Sample.db → Conversation.id c ≠ 0) ∧
  status answer.2 = 200 ∧
  answer.2 ≠ HTTPException 404 "Conversation not found" ∧
  length (conversations answer.1) = S (length (conversations Sample.db)).
Proof.
  cbv zeta. split_and!.
  - apply (checked_all (λ c, Conversation.id c ≠ 0) (conversations Sample.db)).
    vm_compute. reflexivity.
  - vm_compute. reflexivity.
  - vm_compute. discriminate.
  - vm_compute. reflexivity.
Qed.

(** Alice asks for Bob's conversation 2, before it exists and after. *)
Lemma foreign_conversation_hidden_sample :
  let not_found := HTTPException 404 "Conversation not found" in
  let ask := ChatRequest.mk "hi" (Some 2) in
  let w := Sample.world Sample.replies in
  get_messages 2 (Some Sample.alice) Sample.db_before
  = (Sample.db_before, not_found) ∧
  get_messages 2 (Some Sample.alice) Sample.db = (Sample.db, not_found) ∧
  delete_conversation 2 (Some Sample.alice) Sample.db_before
  = (Sample.db_before, not_found) ∧
  delete_conversation 2 (Some Sample.alice) Sample.db
  = (Sample.db, not_found) ∧
  chat w ask (Some Sample.alice) Sample.db_before
  = (Sample.db_before, not_found) ∧
  chat w ask (Some Sample.alice) Sample.db = (Sample.db, not_found).
Proof.
  cbv zeta.
  destruct (foreign_conversation_hidden (Sample.world Sample.replies) "hi"
              (Some Sample.alice) Sample.db_before Sample.db
              (User.mk 1 "g-alice" "alice@example.org" (Some "Alice") None 1 1)
              (User.mk 1 "g-alice" "alice@example.org" (Some "Alice") None 1 1)
              2)
    as (Hm1 & Hm2 & Hd1 & Hd2 & Hchat).
  - vm_compute. reflexivity.
  - vm_compute. reflexivity.
  - apply (checked_all (λ c, Conversation.id c ≠ 2)
             (conversations Sample.db_before)).
    vm_compute. reflexivity.
  - unfold not_owned.
    apply (checked_all
             (λ c, Conversation.id c = 2 → Conversation.user_id c ≠ 1)
             (conversations Sample.db)).
    vm_compute. reflexivity.
  - destruct Hchat as [Hc1 Hc2]; [lia|].
    split; [exact Hm1|]. split; [exact Hm2|]. split; [exact Hd1|].
    split; [exact Hd2|]. split; [exact Hc1|exact Hc2].
Defined.

(** Carol has a cookie and no row. *)
Lemma unauthenticated_rejected_sample :
  let denied := (Sample.db, HTTPException 401 "Not authenticated") in
  get_conversations (Some Sample.carol) Sample.db = denied ∧
  create_conversation (Some "New Chat") 50 (Some Sample.carol) Sample.db
  = denied ∧
  delete_conversation 1 (Some Sample.carol) Sample.db = denied ∧
  get_messages 1 (Some Sample.carol) Sample.db = denied ∧
  chat (Sample.world Sample.replies) Sample.request (Some Sample.carol)
    Sample.db = denied ∧
  status denied.2 = 401 ∧
  delivered denied = Sample.db.
Proof.
  apply (unauthenticated_rejected (Sample.world Sample.replies)
           (Some "New Chat") 50 1 Sample.request (Some Sample.carol)
           Sample.db).
  vm_compute. reflexivity.
Defined.

(** A message of 51 characters: the title keeps 50 of them and has 53. *)
Lemma auto_created_title_sample :
  let message := "123456789 123456789 123456789 123456789 123456789 1" in
  ∃ new_conversation,
    conversations
      (chat (Sample.world Sample.replies) (ChatRequest.mk message None)
         (Some Sample.alice) Sample.db).1
    = conversations Sample.db ++ [new_conversation] ∧
    Conversation.title new_conversation
    = "123456789 123456789 123456789 123456789 123456789 ..." ∧
    String.length (Conversation.title new_conversation) = 53%nat.
Proof.
  cbv zeta.
  destruct (auto_created_title (Sample.world Sample.replies)
              "123456789 123456789 123456789 123456789 123456789 1"
              (Some Sample.alice) Sample.db
              (User.mk 1 "g-alice" "alice@example.org" (Some "Alice") None 1 1))
    as (new & Hconvs & _ & _ & Hlong).
  - vm_compute. reflexivity.
  - destruct Hlong as (Htitle & _ & _ & Hlen); [vm_compute; lia|].
    exists new. split; [exact Hconvs|]. split; [exact Htitle|exact Hlen].
Defined.

(** Alice signs in again. *)
Lemma auth_known_user_keeps_store_sample :
  auth (Some Sample.alice) 50 None Sample.db
  = (Sample.db, Some Sample.alice,
     RedirectResponse "http://localhost:3000/chat")
  ∧ users (auth (Some Sample.alice) 50 None Sample.db).1.1 = users Sample.db.
Proof.
  apply (auth_known_user_keeps_store Sample.alice "g-alice"
           (User.mk 1 "g-alice" "alice@example.org" (Some "Alice") None 1 1)).
  - vm_compute. reflexivity.
  - apply list_elem_of_In. vm_compute. left. reflexivity.
  - reflexivity.
Defined.

(** The provider returns an empty dict. *)
Lemma auth_without_claims_sample :
  auth (Some ∅) 50 None Sample.db
  = (Sample.db, None,
     JSONResponse (JObj [("error", JStr "Authentication failed")]))
  ∧ status (auth (Some ∅) 50 None Sample.db).2 = 200.
Proof.
  apply (auth_without_claims (Some ∅) 50 None Sample.db).
  vm_compute. reflexivity.
Defined.

(** Alice chats with [conversation_id] 0. *)
Lemma chat_zero_is_omitted_sample :
  let w := Sample.world Sample.replies in
  chat w (ChatRequest.mk "hi" (Some 0)) (Some Sample.alice) Sample.db
  = chat w (ChatRequest.mk "hi" None) (Some Sample.alice) Sample.db ∧
  ∃ new_conversation user_message body,
    chat w (ChatRequest.mk "hi" (Some 0)) (Some Sample.alice) Sample.db
    = (mkDB (users Sample.db)
         (conversations Sample.db ++ [new_conversation])
         (messages Sample.db ++ [user_message]),
       StreamingResponse body) ∧
    Conversation.user_id new_conversation = 1 ∧
    Conversation.title new_conversation = auto_title "hi" ∧
    Message.conversation_id user_message = Conversation.id new_conversation ∧
    head body
    = Some (Yield (meta_frame (Conversation.id new_conversation) user_message)).
Proof.
  cbv zeta.
  apply (chat_zero_is_omitted (Sample.world Sample.replies) "hi"
           (Some Sample.alice) Sample.db
           (User.mk 1 "g-alice" "alice@example.org" (Some "Alice") None 1 1)).
  vm_compute. reflexivity.
Defined.

(** * More of the service *)

(** ** Sessions look at the users table only *)

Lemma session_reads_users session db1 db2 :
  users db1 = users db2 →
  get_current_user_from_session session db1
  = get_current_user_from_session session db2.
Proof.
  intros Hu. unfold get_current_user_from_session, user_by_google_id.
  by rewrite Hu.
Qed.

Lemma owned_conversation_Some cid uid db c :
  owned_conversation cid uid db = Some c →
  c ∈ conversations db ∧ Conversation.id c = cid ∧ Conversation.user_id c = uid.
Proof.
  unfold owned_conversation, first.
  intros [[Hid Huid] Hc]%head_Some_elem_of%list_elem_of_filter. done.
Qed.

Lemma owned_conversation_found cid uid db c :
  c ∈ conversations db → Conversation.id c = cid →
  Conversation.user_id c = uid →
  is_Some (owned_conversation cid uid db).
Proof.
  intros Hc Hid Huid.
  destruct (owned_conversation cid uid db) eqn:Hfind; [done|].
  apply owned_conversation_None in Hfind. by destruct (Hfind c Hc Hid).
Qed.

(** ** Listing conversations *)

Lemma desc_total a b : desc a b = false → desc b a = true.
Proof. unfold desc. intros Hab%Z.leb_gt. apply Z.leb_le. lia. Qed.

Lemma desc_trans a b c : desc a b = true → desc b c = true → desc a c = true.
Proof. unfold desc. intros Hab%Z.leb_le Hbc%Z.leb_le. apply Z.leb_le. lia. Qed.

Lemma asc_total a b : asc a b = false → asc b a = true.
Proof. unfold asc. intros Hab%Z.leb_gt. apply Z.leb_le. lia. Qed.

Lemma asc_trans a b c : asc a b = true → asc b c = true → asc a c = true.
Proof. unfold asc. intros Hab%Z.leb_le Hbc%Z.leb_le. apply Z.leb_le. lia. Qed.

(** X1: an authenticated caller is listed their own conversations, all of
    them and no one else's, the newest first. *)
Theorem conversations_listed session db db_user :
  get_current_user_from_session session db = Return (Some db_user) →
  ∃ listed,
    get_conversations session db
    = (db, JSONResponse (JObj [("conversations",
                                JList (conversation_json <$> listed))])) ∧
    listed ≡ₚ filter (λ c, Conversation.user_id c = User.id db_user)
                (conversations db) ∧
    (∀ c, c ∈ listed ↔
          c ∈ conversations db ∧ Conversation.user_id c = User.id db_user) ∧
    StronglySorted
      (λ a b, Conversation.created_at b ≤ Conversation.created_at a) listed.
Proof.
  intros Hu. unfold get_conversations, authenticated. rewrite Hu.
  eexists. split; [done|]. split_and!.
  - apply order_by_perm.
  - intros c. rewrite order_by_elem_of, list_elem_of_filter. tauto.
  - eapply StronglySorted_mono;
      [|apply (order_by_sorted Conversation.created_at desc);
        [apply desc_total|apply desc_trans]].
    intros a b Hab. by apply Z.leb_le.
Qed.


(** X2: a conversation an authenticated caller creates is theirs, has
    the title they gave, is the body of the answer, and is in the list
    the caller is given next; the rows that were there stay. *)
Theorem created_conversation_listed title now session db db_user :
  get_current_user_from_session session db = Return (Some db_user) →
  ∃ new_conversation listed,
    let db' := mkDB (users db) (conversations db ++ [new_conversation])
                 (messages db) in
    create_conversation (Some title) now session db
    = (db', JSONResponse (conversation_json new_conversation)) ∧
    Conversation.title new_conversation = title ∧
    Conversation.user_id new_conversation = User.id db_user ∧
    Conversation.created_at new_conversation = now ∧
    get_conversations session db'
    = (db', JSONResponse (JObj [("conversations",
                                 JList (conversation_json <$> listed))])) ∧
    new_conversation ∈ listed.
Proof.
  intros Hu.
  set (new := Conversation.mk (next_id (Conversation.id <$> conversations db))
                (User.id db_user) title now).
  set (db' := mkDB (users db) (conversations db ++ [new]) (messages db)).
  assert (get_current_user_from_session session db' = Return (Some db_user))
    as Hu' by by rewrite <-Hu.
  exists new, (order_by Conversation.created_at desc
                 (filter (λ c, Conversation.user_id c = User.id db_user)
                    (conversations db'))).
  cbv zeta. fold db'. split_and!; try done.
  - unfold create_conversation, authenticated. by rewrite Hu.
  - unfold get_conversations, authenticated. by rewrite Hu'.
  - apply order_by_elem_of, list_elem_of_filter. split; [done|].
    simpl. apply elem_of_app. right. by apply list_elem_of_singleton.
Qed.

(** ** Reading and deleting a conversation *)

(** X3: the owner of a conversation is given its messages, all of them
    and none of another conversation, the oldest first. *)
Theorem messages_listed cid session db db_user c :
  get_current_user_from_session session db = Return (Some db_user) →
  c ∈ conversations db →
  Conversation.id c = cid →
  Conversation.user_id c = User.id db_user →
  ∃ listed,
    get_messages cid session db
    = (db, JSONResponse (JObj [("messages",
                                JList (message_json <$> listed))])) ∧
    listed ≡ₚ messages_of cid db ∧
    (∀ m, m ∈ listed ↔ m ∈ messages db ∧ Message.conversation_id m = cid) ∧
    chronological listed.
Proof.
  intros Hu Hc Hid Huid. unfold get_messages, authenticated. rewrite Hu.
  destruct (owned_conversation_found cid (User.id db_user) db c) as [c' ->];
    try done.
  eexists. split; [done|]. unfold transcript. split_and!.
  - apply order_by_perm.
  - intros m. unfold messages_of.
    rewrite order_by_elem_of, list_elem_of_filter. tauto.
  - eapply StronglySorted_mono;
      [|apply (order_by_sorted Message.timestamp asc);
        [apply asc_total|apply asc_trans]].
    intros a b Hab. by apply Z.leb_le.
Qed.

(** X4: when its owner deletes a conversation, the rows with its id
    leave the conversations table and its messages leave with them;
    users, and the messages of every other conversation, stay as they
    were. *)
Theorem delete_cascades cid session db db_user c :
  get_current_user_from_session session db = Return (Some db_user) →
  c ∈ conversations db →
  Conversation.id c = cid →
  Conversation.user_id c = User.id db_user →
  ∃ db',
    delete_conversation cid session db
    = (db', JSONResponse (JObj [("message", JStr "Conversation deleted")])) ∧
    users db' = users db ∧
    conversations db'
    = filter (λ c', Conversation.id c' ≠ cid) (conversations db) ∧
    messages db'
    = filter (λ m, Message.conversation_id m ≠ cid) (messages db) ∧
    messages_of cid db' = [] ∧
    (∀ cid', cid' ≠ cid → messages_of cid' db' = messages_of cid' db).
Proof.
  intros Hu Hc Hid Huid. unfold delete_conversation, authenticated. rewrite Hu.
  destruct (owned_conversation_found cid (User.id db_user) db c)
    as [c' Hfind]; try done.
  rewrite Hfind. apply owned_conversation_Some in Hfind as (_ & Hid' & _).
  eexists. split; [done|]. unfold delete_conversation_row, messages_of.
  simpl. rewrite Hid'. split_and!; try done.
  - apply elem_of_nil_inv. intros m.
    rewrite !list_elem_of_filter. tauto.
  - intros cid' Hne. rewrite list_filter_filter.
    apply list_filter_iff. intros m. split; [tauto|].
    intros Hm. split; [done|]. congruence.
Qed.


(** X5: once its owner has deleted a conversation, its id names nothing
    any more: reading its messages, deleting it again and chatting in it
    all answer 404. *)
Theorem deleted_conversation_gone w message cid session db db_user c :
  get_current_user_from_session session db = Return (Some db_user) →
  c ∈ conversations db →
  Conversation.id c = cid →
  Conversation.user_id c = User.id db_user →
  cid ≠ 0 →
  let db' := (delete_conversation cid session db).1 in
  let not_found := HTTPException 404 "Conversation not found" in
  get_messages cid session db' = (db', not_found) ∧
  delete_conversation cid session db' = (db', not_found) ∧
  chat w (ChatRequest.mk message (Some cid)) session db' = (db', not_found).
Proof.
  intros Hu Hc Hid Huid Hcid.
  destruct (owned_conversation_found cid (User.id db_user) db c)
    as [c' Hfind]; try done.
  assert (delete_conversation cid session db
          = (delete_conversation_row c' db,
             JSONResponse (JObj [("message", JStr "Conversation deleted")])))
    as Hdel.
  { unfold delete_conversation, authenticated. by rewrite Hu, Hfind. }
  apply owned_conversation_Some in Hfind as (_ & Hid' & _).
  cbv zeta. rewrite Hdel. simpl.
  set (db' := delete_conversation_row c' db).
  assert (get_current_user_from_session session db' = Return (Some db_user))
    as Hu' by by rewrite (session_reads_users session db' db).
  assert (owned_conversation cid (User.id db_user) db' = None) as Hnone.
  { apply owned_conversation_None. intros c'' Hc'' Hid'' _.
    apply list_elem_of_filter in Hc'' as [Hne _]. congruence. }
  unfold get_messages, delete_conversation, chat, authenticated,
    resolve_conversation.
  rewrite Hu', Hnone. simpl. rewrite bool_decide_eq_false_2 by done.
  simpl. by rewrite Hnone.
Qed.

(** ** Signing in and out *)

Lemma user_by_google_id_new sub db u :
  (∀ u', u' ∈ users db → User.google_id u' ≠ sub) →
  User.google_id u = sub →
  user_by_google_id sub (mkDB (users db ++ [u]) (conversations db) (messages db))
  = Some u.
Proof.
  intros Hnew Hsub. unfold user_by_google_id, first. simpl.
  rewrite filter_app, filter_cons_True, filter_nil by done.
  replace (filter _ (users db)) with (@nil User.t); [done|].
  symmetry. apply elem_of_nil_inv. intros u' [Heq Hu']%list_elem_of_filter.
  by apply (Hnew u').
Qed.


(** X7: whatever the provider returns, the callback leaves conversations
    and messages alone and keeps every user row where it was, at most
    adding one at the end; and it keeps subjects and addresses unique
    among the rows. *)
Theorem auth_keeps_users user now session db :
  let db' := (auth user now session db).1.1 in
  conversations db' = conversations db ∧
  messages db' = messages db ∧
  (users db' = users db ∨ ∃ u, users db' = users db ++ [u]) ∧
  (NoDup (User.google_id <$> users db) →
   NoDup (User.google_id <$> users db')) ∧
  (NoDup (User.email <$> users db) → NoDup (User.email <$> users db')).
Proof.
  cbv zeta. unfold auth. destruct (truthy user); [|by auto].
  destruct (default ∅ user !! "sub") as [sub|]; [|by auto].
  destruct (user_by_google_id sub db) eqn:Hfind; [by auto|].
  destruct (default ∅ user !! "email") as [email|]; [|by auto].
  case_bool_decide as Hfree; [by auto|].
  unfold add_user. simpl. split_and!; try done.
  - right. by eexists.
  - intros Hnd. rewrite fmap_app. apply NoDup_app. split_and!; try done.
    + intros g (u & -> & Hu)%list_elem_of_fmap [Heq|[]%elem_of_nil]%elem_of_cons.
      simpl in Heq. rewrite user_by_google_id_None in Hfind.
      by apply (Hfind u).
    + apply NoDup_singleton.
  - intros Hnd. rewrite fmap_app. apply NoDup_app. split_and!; try done.
    + intros e He [Heq|[]%elem_of_nil]%elem_of_cons. simpl in Heq.
      by subst e.
    + apply NoDup_singleton.
Qed.


(** X8: the session a successful callback leaves resolves to a user
    row of the store it leaves, the row of the subject in the claims: the
    caller is not turned away with 401. *)
Theorem auth_session_resolves user now session db db' session' :
  auth user now session db
  = (db', session', RedirectResponse "http://localhost:3000/chat") →
  ∃ claims sub db_user,
    session' = Some claims ∧
    claims !! "sub" = Some sub ∧
    get_current_user_from_session session' db' = Return (Some db_user) ∧
    db_user ∈ users db' ∧
    User.google_id db_user = sub ∧
    status (get_conversations session' db').2 = 200.
Proof.
  unfold auth. destruct (truthy user) eqn:Ht; [|done].
  destruct user as [claims|]; [|done]. simpl.
  destruct (claims !! "sub") as [sub|] eqn:Hsub; [|done].
  assert (∀ d u, user_by_google_id sub d = Some u →
            get_current_user_from_session (Some claims) d = Return (Some u) ∧
            u ∈ users d ∧ User.google_id u = sub ∧
            status (get_conversations (Some claims) d).2 = 200) as Hres.
  { intros d u Hu.
    assert (get_current_user_from_session (Some claims) d = Return (Some u))
      as Hs.
    { unfold get_current_user_from_session. simpl in Ht. simpl.
      rewrite Ht. simpl. by rewrite Hsub, Hu. }
    split; [done|]. unfold user_by_google_id, first in Hu.
    apply head_Some_elem_of, list_elem_of_filter in Hu as [Hg Hin].
    split_and!; try done.
    unfold get_conversations, authenticated. by rewrite Hs. }
  destruct (user_by_google_id sub db) as [u|] eqn:Hfind.
  - intros [= <- <-]. exists claims, sub, u.
    destruct (Hres db u Hfind) as (? & ? & ? & ?). done.
  - destruct (claims !! "email") as [email|] eqn:Hemail; [|done].
    case_bool_decide; [done|]. intros [= <- <-].
    set (u := User.mk (next_id (User.id <$> users db)) sub email
                (claims !! "name") (claims !! "picture") now now).
    exists claims, sub, u.
    destruct (Hres (add_user sub email (claims !! "name")
                      (claims !! "picture") now db) u)
      as (? & ? & ? & ?); [|done].
    apply (user_by_google_id_new sub db u); [|done].
    by apply user_by_google_id_None.
Qed.

(** After [logout] the session opens none of the protected
    endpoints, whatever it held before, and [/me] answers with no
    user. *)
Lemma logout_ends_session w title now cid req session db :
  let session' := (logout session).1 in
  let denied := (db, HTTPException 401 "Not authenticated") in
  get_conversations session' db = denied ∧
  create_conversation title now session' db = denied ∧
  delete_conversation cid session' db = denied ∧
  get_messages cid session' db = denied ∧
  chat w req session' db = denied ∧
  get_current_user session' db = JSONResponse (JObj [("user", JNull)]).
Proof. done. Qed.

(** X9: [/me] and the protected endpoints read the session alike: [/me]
    answers with no user exactly when the endpoints answer 401, and
    with the profile of the row they would act for otherwise. *)
Theorem me_agrees_with_session session db :
  match get_current_user_from_session session db with
  | Return None =>
      get_current_user session db = JSONResponse (JObj [("user", JNull)])
  | Return (Some db_user) =>
      get_current_user session db
      = JSONResponse (JObj [("user", JObj [
          ("id", JStr (pretty (User.id db_user)));
          ("email", JStr (User.email db_user));
          ("name", jopt (User.name db_user));
          ("picture", jopt (User.picture db_user))])])
  | Raise => get_current_user session db = Unhandled
  end.
Proof.
  unfold get_current_user_from_session, get_current_user.
  destruct (truthy session); simpl; [|done].
  destruct (default ∅ session !! "sub"); [|done].
  by destruct (user_by_google_id _ db).
Qed.

(** ** The lines of a reply *)

(** X10: what follows the line that says the reply is done is never
    read: the stream and the buffer are those of the reply cut after that
    line, a line that would raise included, and [full_response] is what
    it would be. *)
Theorem relay_stops_at_done before content after full :
  relay (before ++ Chunk content true :: after) full
  = relay (before ++ [Chunk content true]) full.
Proof.
  revert full. induction before as [|l rest IH]; intros full; simpl.
  - done.
  - destruct l as [|c fin|e]; [apply IH| |done].
    destruct fin; [done|]. by rewrite IH.
Qed.

(** X11: an empty line changes nothing: the loop yields the same
    frames, keeps the same buffer and ends the same way with the line as
    without it. *)
Theorem relay_skips_blank before after full :
  relay (before ++ Blank :: after) full = relay (before ++ after) full.
Proof.
  revert full. induction before as [|l rest IH]; intros full; simpl.
  - done.
  - destruct l as [|c fin|e]; [apply IH| |done].
    destruct fin; [done|]. by rewrite IH.
Qed.

(** X12: when the inference call of a chat stream runs to its end, the
    stream has no "error" frame: after the "meta" frame comes one
    "content" frame for each fragment of the lines read, in their order,
    then the "done" frame, and the message committed with sender "ai"
    holds these fragments put together.  A call that does not fail runs
    to its end. *)
Theorem inference_success_relayed w req session db db' body sent contents :
  chat w req session db = (db', StreamingResponse body) →
  posts body = [sent] →
  completes (ollama w sent) contents →
  ∃ cid user_message ai_message,
    frames body
    = meta_frame cid user_message
        :: (content_frame <$> contents) ++ [done_frame ai_message] ∧
    messages (delivered (db', StreamingResponse body))
    = messages db' ++ [ai_message] ∧
    Message.sender ai_message = "ai" ∧
    Message.content ai_message = join contents ∧
    (∀ e, ¬ fails_with (ollama w sent) e).
Proof.
  intros (db_user & db1 & cid & _ & _ & -> & ->)%chat_streams.
  set (um := Message.mk _ cid "user" _ _).
  set (db' := mkDB _ _ _).
  destruct (event_generator_run w cid um db') as (Hfr & Hpo & Hrun).
  rewrite Hpo. intros [= <-] Hc.
  pose proof (stream_inference_completes _ _ Hc) as Hout.
  rewrite Hout in Hfr, Hrun. simpl in Hfr, Hrun.
  eexists cid, um, _. split_and!.
  - exact Hfr.
  - change (delivered (?d, StreamingResponse ?b)) with (run_events d b).
    by rewrite Hrun.
  - done.
  - done.
  - intros e. by apply (completes_never_fails _ contents).
Qed.

(** ** The window and the transcript *)

Lemma NoDup_fmap_eq {A B} (f : A → B) (l : list A) x y :
  NoDup (f <$> l) → x ∈ l → y ∈ l → f x = f y → x = y.
Proof.
  induction l as [|a l IH]; simpl; [by intros _ []%elem_of_nil|].
  intros [Ha Hl]%NoDup_cons [->|Hx]%elem_of_cons [->|Hy]%elem_of_cons Hxy;
    try done.
  - destruct Ha. rewrite Hxy. by apply list_elem_of_fmap_2.
  - destruct Ha. rewrite <-Hxy. by apply list_elem_of_fmap_2.
  - by apply IH.
Qed.

(** With no two stamps alike, newest first is oldest first read
    backwards. *)
Lemma order_by_desc_reverse (rows : list Message.t) :
  NoDup (Message.timestamp <$> rows) →
  order_by Message.timestamp desc rows
  = reverse (order_by Message.timestamp asc rows).
Proof.
  intros Hnd.
  apply (StronglySorted_unique_strong
           (λ a b, desc (Message.timestamp a) (Message.timestamp b) = true)).
  - intros x y Hx Hy Hxy Hyx.
    apply order_by_elem_of in Hx.
    rewrite elem_of_reverse in Hy. apply order_by_elem_of in Hy.
    apply (NoDup_fmap_eq Message.timestamp rows); try done.
    unfold desc in *. apply Z.leb_le in Hxy, Hyx. lia.
  - apply order_by_sorted; [apply desc_total|apply desc_trans].
  - apply (StronglySorted_reverse
             (λ a b, asc (Message.timestamp a) (Message.timestamp b) = true)).
    apply order_by_sorted; [apply asc_total|apply asc_trans].
  - by rewrite reverse_Permutation, !order_by_perm.
Qed.

(** X13: in a conversation where no two messages bear the same stamp,
    the window sent to the inference service is the end of the
    transcript the messages endpoint shows: its last ten entries, or all
    of it when it has fewer. *)
Theorem history_is_transcript_tail cid db :
  NoDup (Message.timestamp <$> messages_of cid db) →
  history cid db
  = drop (length (transcript cid db) - 10) (transcript cid db).
Proof.
  intros Hnd. unfold history, limit, transcript.
  rewrite order_by_desc_reverse by done.
  by rewrite take_reverse, reverse_involutive.
Qed.

(** ** What a chat call leaves in the store *)

Lemma session_user_elem session db db_user :
  get_current_user_from_session session db = Return (Some db_user) →
  db_user ∈ users db.
Proof.
  unfold get_current_user_from_session. destruct (negb _); [done|].
  destruct (_ !! "sub") as [sub|]; [|done]. intros [= Hu].
  unfold user_by_google_id, first in Hu.
  by apply head_Some_elem_of, list_elem_of_filter in Hu as [_ ?].
Qed.

Lemma next_id_above (ids : list Z) x : x ∈ ids → x < next_id ids.
Proof.
  unfold next_id. induction ids as [|y ids IH]; simpl.
  - by intros []%elem_of_nil.
  - intros [->|Hx]%elem_of_cons; [lia|]. specialize (IH Hx). lia.
Qed.

(** The two ways a chat call finds its conversation. *)
Lemma resolve_conversation_cases w req db_user db db1 cid :
  resolve_conversation w req db_user db = Some (db1, cid) →
  (falsy (ChatRequest.conversation_id req) = true ∧
   cid = next_id (Conversation.id <$> conversations db) ∧
   conversations db1
   = conversations db
     ++ [Conversation.mk cid (User.id db_user)
           (auto_title (ChatRequest.message req)) (conversation_now w)]) ∨
  (ChatRequest.conversation_id req = Some cid ∧ cid ≠ 0 ∧
   conversations db1 = conversations db ∧
   ∃ c, c ∈ conversations db ∧ Conversation.id c = cid ∧
        Conversation.user_id c = User.id db_user).
Proof.
  unfold resolve_conversation.
  destruct (ChatRequest.conversation_id req) as [n|] eqn:Hreq; simpl.
  - case_bool_decide as Hn.
    + intros [= <- <-]. left. done.
    + destruct (owned_conversation n (User.id db_user) db) as [c|] eqn:Hfind;
        [|done].
      intros [= <- <-]. right. split_and!; try done.
      exists c. by apply owned_conversation_Some.
  - intros [= <- <-]. left. done.
Qed.

(** What the store holds once a chat call that streams is delivered. *)
Lemma chat_delivered w req session db db' body :
  chat w req session db = (db', StreamingResponse body) →
  ∃ db_user db1 cid user_message ai_message,
    get_current_user_from_session session db = Return (Some db_user) ∧
    resolve_conversation w req db_user db = Some (db1, cid) ∧
    Message.conversation_id user_message = cid ∧
    Message.content user_message = ChatRequest.message req ∧
    Message.conversation_id ai_message = cid ∧
    db' = mkDB (users db) (conversations db1) (messages db ++ [user_message]) ∧
    posts body = [ollama_message <$> history cid db'] ∧
    delivered (db', StreamingResponse body)
    = mkDB (users db) (conversations db1)
        (messages db ++ [user_message; ai_message]).
Proof.
  intros (db_user & db1 & cid & Hu & Hres & -> & ->)%chat_streams.
  set (um := Message.mk _ cid "user" _ _).
  set (db' := mkDB _ _ _).
  destruct (event_generator_frames w cid um db') as (cs & _ & Hpo & Hrun & _).
  set (ai := Message.mk _ cid "ai" _ _) in Hrun.
  exists db_user, db1, cid, um, ai. split_and!; try done.
  change (delivered (?d, StreamingResponse ?b)) with (run_events d b).
  rewrite Hrun. simpl. by rewrite <-(assoc_L (++)).
Qed.

(** X14: a chat call only adds rows.  Whatever the request, the session
    and the reply of the inference service, once the answer is delivered
    the users table is as it was, and the conversations and the messages
    that were there are still there, unchanged and in their places, in
    front of what the call added. *)
Theorem chat_only_appends w req session db :
  let final := delivered (chat w req session db) in
  users final = users db ∧
  conversations db `prefix_of` conversations final ∧
  messages db `prefix_of` messages final.
Proof.
  cbv zeta.
  destruct (chat w req session db) as [db' r] eqn:Hchat.
  destruct r as [code detail|b|url|body|];
    try (unfold chat, authenticated in Hchat;
         destruct (get_current_user_from_session session db) as [[u|]|];
         [destruct (resolve_conversation w req u db) as [[d1 cid]|];
          simplify_eq/=|simplify_eq/=..]; done).
  destruct (chat_delivered w req session db db' body Hchat)
    as (u & db1 & cid & um & ai & _ & Hres & _ & _ & _ & _ & _ & ->).
  simpl. split_and!; [done| |by eexists].
  apply resolve_conversation_cases in Hres as [(_ & _ & ->)|(_ & _ & -> & _)];
    [by eexists|done].
Qed.

(** X15: a chat call in a conversation the caller owns creates no
    conversation: it adds the user's message and then the assistant's to
    that conversation, and the messages of every other conversation are
    what they were. *)
Theorem chat_in_owned_conversation w message cid session db db_user c :
  get_current_user_from_session session db = Return (Some db_user) →
  c ∈ conversations db →
  Conversation.id c = cid →
  Conversation.user_id c = User.id db_user →
  cid ≠ 0 →
  ∃ user_message ai_message body,
    chat w (ChatRequest.mk message (Some cid)) session db
    = (mkDB (users db) (conversations db) (messages db ++ [user_message]),
       StreamingResponse body) ∧
    delivered (chat w (ChatRequest.mk message (Some cid)) session db)
    = mkDB (users db) (conversations db)
        (messages db ++ [user_message; ai_message]) ∧
    Message.conversation_id user_message = cid ∧
    Message.conversation_id ai_message = cid ∧
    Message.content user_message = message ∧
    (∀ cid', cid' ≠ cid →
       messages_of cid'
         (delivered (chat w (ChatRequest.mk message (Some cid)) session db))
       = messages_of cid' db).
Proof.
  intros Hu Hc Hid Huid Hcid.
  destruct (owned_conversation_found cid (User.id db_user) db c)
    as [c' Hfind]; try done.
  destruct (chat w (ChatRequest.mk message (Some cid)) session db)
    as [db' r] eqn:Hchat.
  assert (∃ body, r = StreamingResponse body) as [body ->].
  { unfold chat, authenticated, resolve_conversation in Hchat.
    rewrite Hu in Hchat. simpl in Hchat.
    rewrite bool_decide_eq_false_2, Hfind in Hchat by done.
    simplify_eq/=. by eexists. }
  destruct (chat_delivered w _ session db db' body Hchat)
    as (u & db1 & cid' & um & ai & Hu' & Hres & Hum & Hcontent & Hai & Hdb'
        & _ & Hfin).
  apply resolve_conversation_cases in Hres
    as [(Hf & _)|(Hreq & _ & Hconvs & _)];
    [simpl in Hf; by rewrite bool_decide_eq_false_2 in Hf|].
  simpl in Hreq. injection Hreq as <-.
  exists um, ai, body. rewrite Hfin, Hdb', Hconvs. split_and!; try done.
  intros cid' Hne. unfold messages_of. simpl.
  rewrite filter_app, !filter_cons_False, filter_nil by congruence.
  by rewrite (right_id_L [] (++)).
Qed.

(** X16: in a store where every message is in a conversation of the
    store, the first chat call of a new conversation sends the inference
    service the user's message and nothing else. *)
Theorem new_conversation_context w message session db db_user :
  get_current_user_from_session session db = Return (Some db_user) →
  (∀ m, m ∈ messages db →
        ∃ c, c ∈ conversations db ∧
             Conversation.id c = Message.conversation_id m) →
  ∃ body,
    (chat w (ChatRequest.mk message None) session db).2
    = StreamingResponse body ∧
    posts body
    = [[JObj [("role", JStr "user"); ("content", JStr message)]]].
Proof.
  intros Hu Hint.
  rewrite (chat_creates w (ChatRequest.mk message None) session db db_user Hu)
    by done.
  cbv zeta. simpl.
  set (cid := next_id (Conversation.id <$> conversations db)).
  set (um := Message.mk _ cid "user" message _).
  set (db' := mkDB _ _ _).
  eexists. split; [done|].
  destruct (event_generator_frames w cid um db') as (cs & _ & -> & _).
  do 2 f_equal.
  assert (messages_of cid db' = [um]) as Hmine.
  { unfold messages_of. simpl.
    rewrite filter_app, filter_cons_True, filter_nil by done.
    replace (filter _ (messages db)) with (@nil Message.t); [done|].
    symmetry. apply elem_of_nil_inv. intros m [Hm Hin]%list_elem_of_filter.
    destruct (Hint m Hin) as (c & Hc & Hid).
    assert (Conversation.id c < cid) as Hlt
      by by apply next_id_above, list_elem_of_fmap_2.
    lia. }
  unfold history, limit. rewrite Hmine. done.
Qed.

(** ** An invariant of the store *)

(** A callback leaves conversations and messages alone and keeps the
    user rows it found. *)
Lemma auth_store user now session db :
  conversations (auth user now session db).1.1 = conversations db ∧
  messages (auth user now session db).1.1 = messages db ∧
  users db `prefix_of` users (auth user now session db).1.1.
Proof.
  unfold auth. destruct (truthy user); [|done].
  destruct (default ∅ user !! "sub") as [sub|]; [|done].
  destruct (user_by_google_id sub db); [done|].
  destruct (default ∅ user !! "email") as [email|]; [|done].
  case_bool_decide; [done|]. simpl. split_and!; try done. by eexists.
Qed.

(** X17: no handler leaves a message without its conversation or a
    conversation without its user.  If every message of the store is in
    a conversation of the store and every conversation belongs to a user
    of the store, the same is true after a callback, after creating or
    deleting a conversation, and after a chat call is delivered. *)
Theorem referential_integrity_kept w req user title cid now session db :
  referential_integrity db →
  referential_integrity (auth user now session db).1.1 ∧
  referential_integrity (create_conversation title now session db).1 ∧
  referential_integrity (delete_conversation cid session db).1 ∧
  referential_integrity (delivered (chat w req session db)).
Proof.
  intros [Hmsgs Hconvs]. split_and!.
  - destruct (auth_store user now session db) as (Hc & Hm & [more Hu]).
    split.
    + intros m. rewrite Hm, Hc. apply Hmsgs.
    + intros c. rewrite Hc. intros (u & Hin & Hid)%Hconvs. exists u.
      split; [|done]. rewrite Hu. apply elem_of_app. by left.
  - unfold create_conversation, authenticated.
    destruct (get_current_user_from_session session db) as [[u|]|] eqn:Hu;
      [|done..].
    destruct title as [title|]; [|done]. simpl. split; simpl.
    + intros m (c & Hc & Hid)%Hmsgs. exists c. split; [|done].
      apply elem_of_app. by left.
    + intros c [Hc| ->%list_elem_of_singleton]%elem_of_app; [by apply Hconvs|].
      exists u. split; [|done]. by eapply session_user_elem.
  - unfold delete_conversation, authenticated.
    destruct (get_current_user_from_session session db) as [[u|]|] eqn:Hu;
      [|done..].
    destruct (owned_conversation cid (User.id u) db) as [c|] eqn:Hfind;
      [|done].
    unfold delete_conversation_row. split; simpl.
    + intros m [Hne Hin]%list_elem_of_filter.
      destruct (Hmsgs m Hin) as (c' & Hc' & Hid). exists c'.
      split; [|done]. apply list_elem_of_filter. split; [congruence|done].
    + intros c' [_ Hin]%list_elem_of_filter. by apply Hconvs.
  - destruct (chat w req session db) as [db' r] eqn:Hchat.
    destruct r as [code detail|b|url|body|];
      try (unfold chat, authenticated in Hchat;
           destruct (get_current_user_from_session session db) as [[u|]|];
           [destruct (resolve_conversation w req u db) as [[d1 cid']|];
            simplify_eq/=|simplify_eq/=..]; done).
    destruct (chat_delivered w req session db db' body Hchat)
      as (u & db1 & cid' & um & ai & Hu & Hres & Hum & _ & Hai & _ & _ & ->).
    apply session_user_elem in Hu.
    apply resolve_conversation_cases in Hres
      as [(_ & Hcid & Hcs)|(_ & _ & Hcs & c & Hc & Hid & _)];
      rewrite Hcs; split; simpl.
    + intros m [Hm|Hm]%elem_of_app.
      * destruct (Hmsgs m Hm) as (c & Hc & Hid). exists c.
        split; [|done]. apply elem_of_app. by left.
      * eexists. split; [apply elem_of_app; right;
                         by apply list_elem_of_singleton|].
        simpl. apply elem_of_cons in Hm as [->|Hm]; [done|].
        by apply list_elem_of_singleton in Hm as ->.
    + intros c [Hc| ->%list_elem_of_singleton]%elem_of_app; [by apply Hconvs|].
      by exists u.
    + intros m [Hm|Hm]%elem_of_app; [by apply Hmsgs|].
      exists c. split; [done|].
      apply elem_of_cons in Hm as [->|Hm]; [congruence|].
      apply list_elem_of_singleton in Hm as ->. congruence.
    + apply Hconvs.
Qed.

(** ** Two more compositions *)

(** X18: the conversation a chat call without [conversation_id] opens
    is in the list the caller is given once the answer is delivered,
    under the title taken from the message. *)
Theorem chat_created_conversation_listed w message session db db_user :
  get_current_user_from_session session db = Return (Some db_user) →
  ∃ new_conversation listed,
    let final :=
      delivered (chat w (ChatRequest.mk message None) session db) in
    conversations final = conversations db ++ [new_conversation] ∧
    Conversation.title new_conversation = auto_title message ∧
    Conversation.user_id new_conversation = User.id db_user ∧
    get_conversations session final
    = (final, JSONResponse (JObj [("conversations",
                                   JList (conversation_json <$> listed))])) ∧
    new_conversation ∈ listed.
Proof.
  intros Hu.
  pose proof (chat_creates w (ChatRequest.mk message None) session db db_user
                Hu eq_refl) as Hchat.
  cbv zeta in Hchat. simpl in Hchat.
  set (new := Conversation.mk (next_id (Conversation.id <$> conversations db))
                (User.id db_user) (auto_title message) (conversation_now w))
    in *.
  destruct (chat_delivered w _ session db _ _ Hchat)
    as (u & db1 & cid & um & ai & _ & _ & _ & _ & _ & Hdb & _ & Hfin).
  rewrite Hchat, Hfin.
  assert (conversations db1 = conversations db ++ [new]) as Hconvs
    by exact (f_equal conversations (eq_sym Hdb)).
  rewrite Hconvs.
  set (final := mkDB (users db) _ _).
  assert (get_current_user_from_session session final = Return (Some db_user))
    as Hu' by by rewrite <-Hu.
  exists new, (order_by Conversation.created_at desc
                 (filter (λ c, Conversation.user_id c = User.id db_user)
                    (conversations final))).
  cbv zeta. split_and!; try done.
  - unfold get_conversations, authenticated. by rewrite Hu'.
  - apply order_by_elem_of, list_elem_of_filter. split; [done|].
    simpl. apply elem_of_app. right. by apply list_elem_of_singleton.
Qed.

(** X19: a failure takes back nothing that was sent.  When a line
    raises, the frames yielded and the buffer kept are those of the
    lines before it. *)
Theorem relay_failure_keeps_earlier before e after full :
  Forall reads_on before →
  relay (before ++ Broken e :: after) full
  = ((relay before full).1.1, (relay before full).1.2, Some e) ∧
  (relay before full).2 = None.
Proof.
  intros Hb. revert full. induction Hb as [|l rest Hl Hrest IH]; intros full.
  - done.
  - destruct Hl as [|content]; simpl; [apply IH|].
    destruct (IH (match content with
                  | Some c => full +:+ c | None => full end)) as [-> Hnone].
    destruct (relay rest _) as [[fs buf] r]. simpl in *. by subst r.
Qed.

(** ** The further properties on the sample store *)

Lemma referential_integrity_checked db :
  forallb (λ m, bool_decide (Message.conversation_id m
                             ∈ Conversation.id <$> conversations db))
    (messages db) = true →
  forallb (λ c, bool_decide (Conversation.user_id c ∈ User.id <$> users db))
    (conversations db) = true →
  referential_integrity db.
Proof.
  intros Hm Hc. split.
  - intros m Hin.
    apply (checked_all _ _ Hm) in Hin as (c & Heq & Hc')%list_elem_of_fmap.
    by exists c.
  - intros c Hin.
    apply (checked_all _ _ Hc) in Hin as (u & Heq & Hu)%list_elem_of_fmap.
    by exists u.
Qed.

Lemma sample_integrity : referential_integrity Sample.db.
Proof. apply referential_integrity_checked; vm_compute; reflexivity. Qed.

Lemma sample_session :
  get_current_user_from_session (Some Sample.alice) Sample.db
  = Return (Some Rows.alice).
Proof. vm_compute. reflexivity. Qed.

Lemma sample_trip : Rows.trip ∈ conversations Sample.db.
Proof. apply list_elem_of_In. vm_compute. left. reflexivity. Qed.

Lemma conversations_listed_sample :
  ∃ listed,
    get_conversations (Some Sample.alice) Sample.db
    = (Sample.db, JSONResponse (JObj [("conversations",
                                       JList (conversation_json <$> listed))])) ∧
    listed ≡ₚ filter (λ c, Conversation.user_id c = 1)
                (conversations Sample.db) ∧
    (∀ c, c ∈ listed ↔
          c ∈ conversations Sample.db ∧ Conversation.user_id c = 1) ∧
    StronglySorted
      (λ a b, Conversation.created_at b ≤ Conversation.created_at a) listed.
Proof.
  exact (conversations_listed (Some Sample.alice) Sample.db Rows.alice
           sample_session).
Defined.

Lemma created_conversation_listed_sample :
  ∃ new_conversation listed,
    let db' := mkDB (users Sample.db)
                 (conversations Sample.db ++ [new_conversation])
                 (messages Sample.db) in
    create_conversation (Some "Plans") 50 (Some Sample.alice) Sample.db
    = (db', JSONResponse (conversation_json new_conversation)) ∧
    Conversation.title new_conversation = "Plans" ∧
    Conversation.user_id new_conversation = 1 ∧
    Conversation.created_at new_conversation = 50 ∧
    get_conversations (Some Sample.alice) db'
    = (db', JSONResponse (JObj [("conversations",
                                 JList (conversation_json <$> listed))])) ∧
    new_conversation ∈ listed.
Proof.
  exact (created_conversation_listed "Plans" 50 (Some Sample.alice) Sample.db
           Rows.alice sample_session).
Defined.

Lemma messages_listed_sample :
  ∃ listed,
    get_messages 1 (Some Sample.alice) Sample.db
    = (Sample.db, JSONResponse (JObj [("messages",
                                       JList (message_json <$> listed))])) ∧
    listed ≡ₚ messages_of 1 Sample.db ∧
    (∀ m, m ∈ listed ↔
          m ∈ messages Sample.db ∧ Message.conversation_id m = 1) ∧
    chronological listed.
Proof.
  exact (messages_listed 1 (Some Sample.alice) Sample.db Rows.alice Rows.trip
           sample_session sample_trip eq_refl eq_refl).
Defined.

Lemma delete_cascades_sample :
  ∃ db',
    delete_conversation 1 (Some Sample.alice) Sample.db
    = (db', JSONResponse (JObj [("message", JStr "Conversation deleted")])) ∧
    users db' = users Sample.db ∧
    conversations db'
    = filter (λ c', Conversation.id c' ≠ 1) (conversations Sample.db) ∧
    messages db'
    = filter (λ m, Message.conversation_id m ≠ 1) (messages Sample.db) ∧
    messages_of 1 db' = [] ∧
    (∀ cid', cid' ≠ 1 → messages_of cid' db' = messages_of cid' Sample.db).
Proof.
  exact (delete_cascades 1 (Some Sample.alice) Sample.db Rows.alice Rows.trip
           sample_session sample_trip eq_refl eq_refl).
Defined.

Lemma deleted_conversation_gone_sample :
  let db' := (delete_conversation 1 (Some Sample.alice) Sample.db).1 in
  let not_found := HTTPException 404 "Conversation not found" in
  get_messages 1 (Some Sample.alice) db' = (db', not_found) ∧
  delete_conversation 1 (Some Sample.alice) db' = (db', not_found) ∧
  chat (Sample.world Sample.replies) (ChatRequest.mk "hi" (Some 1))
    (Some Sample.alice) db' = (db', not_found).
Proof.
  apply (deleted_conversation_gone (Sample.world Sample.replies) "hi" 1
           (Some Sample.alice) Sample.db Rows.alice Rows.trip
           sample_session sample_trip eq_refl eq_refl).
  lia.
Defined.


Lemma auth_keeps_users_sample :
  let db' := (auth (Some Rows.dave) 50 None Sample.db).1.1 in
  conversations db' = conversations Sample.db ∧
  messages db' = messages Sample.db ∧
  (users db' = users Sample.db ∨ ∃ u, users db' = users Sample.db ++ [u]) ∧
  NoDup (User.google_id <$> users db') ∧
  NoDup (User.email <$> users db').
Proof.
  destruct (auth_keeps_users (Some Rows.dave) 50 None Sample.db)
    as (Hc & Hm & Hu & Hsub & Hemail).
  cbv zeta. split; [exact Hc|]. split; [exact Hm|]. split; [exact Hu|].
  split.
  - apply Hsub. apply (bool_decide_unpack _). vm_compute. exact I.
  - apply Hemail. apply (bool_decide_unpack _). vm_compute. exact I.
Defined.

Lemma auth_session_resolves_sample :
  let out := auth (Some Rows.dave) 50 None Sample.db in
  ∃ claims sub db_user,
    out.1.2 = Some claims ∧
    claims !! "sub" = Some sub ∧
    get_current_user_from_session out.1.2 out.1.1 = Return (Some db_user) ∧
    db_user ∈ users out.1.1 ∧
    User.google_id db_user = sub ∧
    status (get_conversations out.1.2 out.1.1).2 = 200.
Proof.
  cbv zeta.
  apply (auth_session_resolves (Some Rows.dave) 50 None Sample.db).
  vm_compute. reflexivity.
Defined.

Lemma inference_success_relayed_sample :
  ∃ cid user_message ai_message,
    frames (Sample.stream Sample.answered.2)
    = meta_frame cid user_message
        :: (content_frame <$> ["Hel"; "lo"]) ++ [done_frame ai_message] ∧
    messages (delivered (Sample.answered.1,
                         StreamingResponse (Sample.stream Sample.answered.2)))
    = messages Sample.answered.1 ++ [ai_message] ∧
    Message.sender ai_message = "ai" ∧
    Message.content ai_message = join ["Hel"; "lo"] ∧
    (∀ e, ¬ fails_with Sample.replies e).
Proof.
  apply (inference_success_relayed (Sample.world Sample.replies)
           Sample.request (Some Sample.alice) Sample.db _ _
           (ollama_message <$> history 1 Sample.answered.1)
           ["Hel"; "lo"]).
  - vm_compute. reflexivity.
  - vm_compute. reflexivity.
  - exact (completes_done [Chunk (Some "Hel") false; Blank] (Some "lo") []
             ltac:(repeat constructor)).
Defined.

Lemma history_is_transcript_tail_sample :
  history 1 Sample.db
  = drop (length (transcript 1 Sample.db) - 10) (transcript 1 Sample.db).
Proof.
  apply (history_is_transcript_tail 1 Sample.db).
  apply (bool_decide_unpack _). vm_compute. exact I.
Defined.

Lemma chat_in_owned_conversation_sample :
  let call :=
    chat (Sample.world Sample.replies) (ChatRequest.mk "and then?" (Some 1))
      (Some Sample.alice) Sample.db in
  ∃ user_message ai_message body,
    call
    = (mkDB (users Sample.db) (conversations Sample.db)
         (messages Sample.db ++ [user_message]),
       StreamingResponse body) ∧
    delivered call
    = mkDB (users Sample.db) (conversations Sample.db)
        (messages Sample.db ++ [user_message; ai_message]) ∧
    Message.conversation_id user_message = 1 ∧
    Message.conversation_id ai_message = 1 ∧
    Message.content user_message = "and then?" ∧
    (∀ cid', cid' ≠ 1 →
       messages_of cid' (delivered call) = messages_of cid' Sample.db).
Proof.
  cbv zeta.
  apply (chat_in_owned_conversation (Sample.world Sample.replies) "and then?"
           1 (Some Sample.alice) Sample.db Rows.alice Rows.trip
           sample_session sample_trip eq_refl eq_refl).
  lia.
Defined.

Lemma new_conversation_context_sample :
  ∃ body,
    (chat (Sample.world Sample.replies) (ChatRequest.mk "hello" None)
       (Some Sample.alice) Sample.db).2
    = StreamingResponse body ∧
    posts body
    = [[JObj [("role", JStr "user"); ("content", JStr "hello")]]].
Proof.
  exact (new_conversation_context (Sample.world Sample.replies) "hello"
           (Some Sample.alice) Sample.db Rows.alice sample_session
           (proj1 sample_integrity)).
Defined.

Lemma referential_integrity_kept_sample :
  referential_integrity (auth (Some Rows.dave) 50 None Sample.db).1.1 ∧
  referential_integrity
    (create_conversation (Some "Plans") 50 (Some Sample.alice) Sample.db).1 ∧
  referential_integrity
    (delete_conversation 1 (Some Sample.alice) Sample.db).1 ∧
  referential_integrity
    (delivered (chat (Sample.world Sample.breaks) Sample.request
                  (Some Sample.alice) Sample.db)).
Proof.
  exact (referential_integrity_kept (Sample.world Sample.breaks) Sample.request
           (Some Rows.dave) (Some "Plans") 1 50 (Some Sample.alice) Sample.db
           sample_integrity).
Defined.

Lemma chat_created_conversation_listed_sample :
  ∃ new_conversation listed,
    let final :=
      delivered (chat (Sample.world Sample.replies)
                   (ChatRequest.mk "hello" None) (Some Sample.alice)
                   Sample.db) in
    conversations final = conversations Sample.db ++ [new_conversation] ∧
    Conversation.title new_conversation = auto_title "hello" ∧
    Conversation.user_id new_conversation = 1 ∧
    get_conversations (Some Sample.alice) final
    = (final, JSONResponse (JObj [("conversations",
                                   JList (conversation_json <$> listed))])) ∧
    new_conversation ∈ listed.
Proof.
  exact (chat_created_conversation_listed (Sample.world Sample.replies)
           "hello" (Some Sample.alice) Sample.db Rows.alice sample_session).
Defined.

Lemma relay_failure_keeps_earlier_sample :
  relay ([Chunk (Some "Hel") false; Blank]
         ++ Broken "Expecting value" :: [Chunk (Some "lo") true]) ""
  = ((relay [Chunk (Some "Hel") false; Blank] "").1.1,
     (relay [Chunk (Some "Hel") false; Blank] "").1.2,
     Some "Expecting value") ∧
  (relay [Chunk (Some "Hel") false; Blank] "").2 = None.
Proof.
  apply (relay_failure_keeps_earlier [Chunk (Some "Hel") false; Blank]).
  repeat constructor.
Defined.
